(** * dvc: filesystem link layer ([dvc/system.py]) and the experiment-stage
    wizard ([dvc/repo/experiments/init.py])

    A shallow embedding of the two modules and the properties their
    specification states about them.

    [dvc/system.py] is a set of thin wrappers over operating-system calls.
    The calls themselves ([os.link], [os.lstat], [open], [fcntl.ioctl],
    [os.unlink], [os.chmod], [ctypes.CDLL], [clonefile]) are not part of the
    repository; they are modelled below by a small POSIX file system
    (directory entries, an inode table, a descriptor table, the directories
    and file systems that paths lie on, permission bits and ownership) for
    an unprivileged process.  The wrappers are then transcribed from the
    source on top of that model, in a state and exception monad. *)

From Stdlib Require Import ZArith String Ascii List Bool Lia.
From stdpp Require Import base option gmap strings list fin_maps sorting.

Local Open Scope Z_scope.
Local Open Scope string_scope.

(** ** Exceptions and the state monad *)

(** The members of Python's [errno] module the code and the model refer to.
    Their numeric values differ between platforms ([ENOTSUP] is 95 on Linux
    and 45 on Darwin), so they are kept symbolic; [ENONE] is the value 0
    that the C [errno] holds before any failure. *)
Inductive errno_code : Type :=
| ENONE | EPERM | ENOENT | EBADF | EACCES | EEXIST | EXDEV | ENOTDIR
| EISDIR | EINVAL | ENOTTY | ELOOP | ENOTSUP.

#[global] Instance errno_code_eq_dec : EqDecision errno_code.
Proof. solve_decision. Defined.

(** [os.strerror]. *)
Definition strerror (e : errno_code) : string :=
  match e with
  | ENONE => "Success"
  | EPERM => "Operation not permitted"
  | ENOENT => "No such file or directory"
  | EBADF => "Bad file descriptor"
  | EACCES => "Permission denied"
  | EEXIST => "File exists"
  | EXDEV => "Invalid cross-device link"
  | ENOTDIR => "Not a directory"
  | EISDIR => "Is a directory"
  | EINVAL => "Invalid argument"
  | ENOTTY => "Inappropriate ioctl for device"
  | ELOOP => "Too many levels of symbolic links"
  | ENOTSUP => "Operation not supported"
  end.

(** Python's [OSError]: the specification's [FilesystemError].  Its [errno]
    attribute is [None] when the exception was built from a message alone
    (as the dynamic loader does); the specification's kind [Unsupported] is
    the errno [ENOTSUP]. *)
Record OSError : Type := mkOSError {
  errno : option errno_code;
  os_strerror : string
}.

Definition os_error (e : errno_code) : OSError :=
  mkOSError (Some e) (strerror e).

Definition Unsupported (e : OSError) : Prop := errno e = Some ENOTSUP.

(** A computation over a state [S] that may raise [E]: the state reached is
    returned in both cases, since a Python exception does not roll back the
    effects that preceded it. *)
Definition M (S E A : Type) : Type := S -> S * (E + A).

Definition ret {S E A} (a : A) : M S E A := fun s => (s, inr a).

Definition raise {S E A} (e : E) : M S E A := fun s => (s, inl e).

Definition bind {S E A B} (m : M S E A) (k : A -> M S E B) : M S E B :=
  fun s =>
    match m s with
    | (s', inr a) => k a s'
    | (s', inl e) => (s', inl e)
    end.

(** [try: m except E as e: h e]. *)
Definition try_except {S E A} (m : M S E A) (h : E -> M S E A) : M S E A :=
  fun s =>
    match m s with
    | (s', inr a) => (s', inr a)
    | (s', inl e) => h e s'
    end.

(** [try: m finally: f] (also the exit of a [with] block): [f] runs on both
    paths; an exception raised by [f] replaces the pending one. *)
Definition try_finally {S E A} (m : M S E A) (f : M S E unit) : M S E A :=
  fun s =>
    match m s with
    | (s', r) =>
        match f s' with
        | (s'', inr _) => (s'', r)
        | (s'', inl e) => (s'', inl e)
        end
    end.

(** [with funcy.suppress(E): m]. *)
Definition suppress {S E} (m : M S E unit) : M S E unit :=
  fun s => (fst (m s), inr tt).

Definition gets {S E A} (f : S -> A) : M S E A := fun s => (s, inr (f s)).

Definition modify {S E} (f : S -> S) : M S E unit := fun s => (f s, inr tt).

Declare Scope monad_scope.
Delimit Scope monad_scope with monad.
Notation "x <- m ;; k" := (bind m (fun x => k))
  (at level 100, m at next level, right associativity) : monad_scope.
Notation "m ;;; k" := (bind m (fun _ => k))
  (at level 100, right associativity) : monad_scope.

(** ** The operating system *)

Definition path : Type := string.
Definition bytes : Type := list Byte.byte.

(** What an inode holds: a regular file with its content, or a symbolic
    link with its target. *)
Inductive node : Type :=
| Regular (data : bytes)
| Symlink (target : path).

Record inode : Type := mkInode {
  i_node : node;
  i_mode : Z  (* permission bits, [st_mode & 0o7777] *)
}.

(** An open file description: the inode, the file system it is on and the
    access mode it was opened with. *)
Record open_file : Type := mkOpenFile {
  of_ino : nat;
  of_dev : nat;
  of_read : bool;
  of_write : bool
}.

(** A loaded dynamic library: the symbols [dlsym] finds in it. *)
Record library : Type := mkLibrary {
  exports : gset string
}.

(** The state of the machine.  Paths, the targets of symbolic links
    included, are taken in one spelling: no [.] or [..] components, no
    doubled or trailing slashes, no symbolic link in the directory part.
    The entries of [names] are files and symbolic links.  A directory is
    known as a place for entries only: [dirs] records which directories
    exist, and nothing can be made at the path of one. *)
Record world : Type := mkWorld {
  (** directory entries: the inode number each path names; several paths
      naming one number are hard links of each other *)
  names : gmap path nat;
  (** the inode table *)
  inodes : gmap nat inode;
  (** the descriptor table of the process *)
  fds : gmap nat open_file;
  (** the directories that exist, as [dirname] spells them; the empty
      string is the working directory *)
  dirs : gset path;
  (** paths whose parent directory denies write permission to the process:
      no entry can be added or removed there, while an existing file can
      still be opened according to its own permission bits *)
  sealed : gset path;
  (** the file system ([st_dev]) each path lies on *)
  device : path -> nat;
  (** the inodes that belong to another user; the process is not
      privileged *)
  foreign : gset nat;
  (** [None] when the file system implements copy-on-write cloning,
      otherwise the errno a clone request fails with *)
  cow : option errno_code;
  (** the file-creation mask of the process *)
  umask : Z;
  (** [platform.system()] *)
  platform_system : string;
  (** [ctypes.CDLL(name, use_errno=True)]: the exception the loader raises
      for [name], or the library it loads *)
  dlopen : string -> OSError + library;
  (** the C [errno] as [ctypes.get_errno()] reads it *)
  c_errno : errno_code
}.

Definition set_names (f : gmap path nat -> gmap path nat) (w : world) : world :=
  mkWorld (f (names w)) (inodes w) (fds w) (dirs w) (sealed w) (device w)
          (foreign w) (cow w) (umask w) (platform_system w) (dlopen w)
          (c_errno w).

Definition set_inodes (f : gmap nat inode -> gmap nat inode) (w : world) : world :=
  mkWorld (names w) (f (inodes w)) (fds w) (dirs w) (sealed w) (device w)
          (foreign w) (cow w) (umask w) (platform_system w) (dlopen w)
          (c_errno w).

Definition set_fds (f : gmap nat open_file -> gmap nat open_file) (w : world) : world :=
  mkWorld (names w) (inodes w) (f (fds w)) (dirs w) (sealed w) (device w)
          (foreign w) (cow w) (umask w) (platform_system w) (dlopen w)
          (c_errno w).

Definition set_c_errno (e : errno_code) (w : world) : world :=
  mkWorld (names w) (inodes w) (fds w) (dirs w) (sealed w) (device w)
          (foreign w) (cow w) (umask w) (platform_system w) (dlopen w) e.

Abbreviation OS := (M world OSError).

(** The inode behind a number.  Every number a directory entry or a
    descriptor holds is in the table in the states the operations build;
    a missing one reads as an empty file without permissions. *)
Definition inode_at (w : world) (i : nat) : inode :=
  default (mkInode (Regular []) 0) (inodes w !! i).

(** [st_nlink]: the number of directory entries that name inode [i]. *)
Definition nlink (w : world) (i : nat) : nat :=
  length (filter (fun kv => snd kv = i) (map_to_list (names w))).

Record stat_result : Type := mkStat {
  st_ino : nat;
  st_mode : Z;
  st_nlink : nat;
  st_islnk : bool  (* [stat.S_ISLNK(st_mode)] *)
}.

Definition stat_of (w : world) (i : nat) : stat_result :=
  let nd := inode_at w i in
  mkStat i (i_mode nd) (nlink w i)
         (match i_node nd with Symlink _ => true | Regular _ => false end).

(** The part of a path before its last slash and the part from that slash
    on, if the path has a slash. *)
Fixpoint split_last_slash (p : string) : option (string * string) :=
  match p with
  | EmptyString => None
  | String a p' =>
      match split_last_slash p' with
      | Some (l, r) => Some (String a l, r)
      | None => if Ascii.eqb a "/" then Some (EmptyString, p) else None
      end
  end.

(** [os.path.dirname]: the directory a path is an entry of; empty for a
    path without a slash, which is an entry of the working directory. *)
Definition dirname (p : path) : path :=
  match split_last_slash p with
  | None => ""
  | Some (EmptyString, _) => "/"
  | Some (d, _) => d
  end.

Definition is_absolute (p : path) : bool :=
  match p with
  | String a _ => Ascii.eqb a "/"
  | EmptyString => false
  end.

(** The path the target [t] of a symbolic link at [p] stands for: [t]
    itself when it is absolute, otherwise [t] taken from the directory of
    the link. *)
Definition link_path (p t : path) : path :=
  if is_absolute t then t
  else if String.eqb (dirname p) "" then t
  else if String.eqb (dirname p) "/" then "/" ++ t
  else dirname p ++ "/" ++ t.

(** Path resolution following symbolic links at the end of the path, at
    most [n] of them: the path reached and the inode number it names, if
    any; [ELOOP] beyond [n] links. *)
Fixpoint walk (n : nat) (w : world) (p : path) : errno_code + (path * option nat) :=
  match names w !! p with
  | None => inr (p, None)
  | Some i =>
      match i_node (inode_at w i) with
      | Regular _ => inr (p, Some i)
      | Symlink t =>
          match n with
          | O => inl ELOOP
          | S n' => walk n' w (link_path p t)
          end
      end
  end.

Definition MAXSYMLINKS : nat := 40.

(** The inode a path resolves to, following symbolic links. *)
Definition resolve (w : world) (p : path) : errno_code + nat :=
  match walk MAXSYMLINKS w p with
  | inl e => inl e
  | inr (_, Some i) => inr i
  | inr (_, None) => inl ENOENT
  end.

(** Why the path [q], which has no entry, cannot be looked up for making
    one, if so: the empty path names nothing, [q] must not be a directory,
    and the directory [q] is to be an entry of must exist. *)
Definition parent_error (w : world) (q : path) : option errno_code :=
  if String.eqb q "" then Some ENOENT
  else if decide (q ∈ dirs w) then Some EEXIST
  else if decide (dirname q ∈ dirs w) then None
  else
    match names w !! dirname q with
    | Some _ => Some ENOTDIR
    | None => Some ENOENT
    end.

(** Why no entry can be made at the path [q], which has none, if so: it
    must be a path that can be looked up, in a directory that can be
    written. *)
Definition create_error (w : world) (q : path) : option errno_code :=
  match parent_error w q with
  | Some e => Some e
  | None => if decide (q ∈ sealed w) then Some EACCES else None
  end.

(** Read and write permission of the process on an inode: the owner bits
    [0o400] and [0o200] for its own files, the bits for others, [0o004] and
    [0o002], for the files of another user. *)
Definition may_read (w : world) (i : nat) : bool :=
  Z.testbit (i_mode (inode_at w i)) (if decide (i ∈ foreign w) then 2 else 8).

Definition may_write (w : world) (i : nat) : bool :=
  Z.testbit (i_mode (inode_at w i)) (if decide (i ∈ foreign w) then 1 else 7).

(** [os.lstat]: the metadata of the entry itself. *)
Definition os_lstat (p : path) : OS stat_result :=
  fun w =>
    match names w !! p with
    | Some i => (w, inr (stat_of w i))
    | None => (w, inl (os_error ENOENT))
    end.

(** [os.stat]: the metadata of what the path resolves to. *)
Definition os_stat (p : path) : OS stat_result :=
  fun w =>
    match resolve w p with
    | inr i => (w, inr (stat_of w i))
    | inl e => (w, inl (os_error e))
    end.

(** [os.path.islink]: [lstat] with [OSError] turned into [False]. *)
Definition os_path_islink (p : path) : OS bool :=
  try_except (st <- os_lstat p ;; ret (st_islnk st))%monad
             (fun _ => ret false).

(** [os.link], that is [link(2)]: a new entry for the inode [src] names
    (the link itself when [src] is a symbolic link, as on Linux).  Both
    paths are looked up, then they must lie on one file system, then the
    directory of [dst] must be writable. *)
Definition os_link (src dst : path) : OS unit :=
  fun w =>
    match names w !! src with
    | None => (w, inl (os_error ENOENT))
    | Some i =>
        match names w !! dst with
        | Some _ => (w, inl (os_error EEXIST))
        | None =>
            match parent_error w dst with
            | Some e => (w, inl (os_error e))
            | None =>
                if negb (device w src =? device w dst)%nat
                then (w, inl (os_error EXDEV))
                else if decide (dst ∈ sealed w)
                then (w, inl (os_error EACCES))
                else (set_names (insert dst i) w, inr tt)
            end
        end
    end.

(** A number no inode has, no directory entry names and no other user
    owns. *)
Definition fresh_ino (w : world) : nat :=
  fresh (dom (inodes w) ∪ map_img (names w) ∪ foreign w : gset nat).

(** [os.symlink]: [dst] becomes a link whose target is the string [src],
    which must not be empty and need not name anything. *)
Definition os_symlink (src dst : path) : OS unit :=
  fun w =>
    if String.eqb src "" then (w, inl (os_error ENOENT))
    else
      match names w !! dst with
      | Some _ => (w, inl (os_error EEXIST))
      | None =>
          match create_error w dst with
          | Some e => (w, inl (os_error e))
          | None =>
              let i := fresh_ino w in
              (set_names (insert dst i)
                 (set_inodes (insert i (mkInode (Symlink src) 0x1ff)) w), inr tt)
          end
      end.

(** [os.unlink]. *)
Definition os_unlink (p : path) : OS unit :=
  fun w =>
    match names w !! p with
    | None => (w, inl (os_error ENOENT))
    | Some _ =>
        if decide (p ∈ sealed w) then (w, inl (os_error EACCES))
        else (set_names (delete p) w, inr tt)
    end.

(** [os.chmod]: follows symbolic links; only the owner of a file may
    change its mode. *)
Definition os_chmod (p : path) (mode : Z) : OS unit :=
  fun w =>
    match resolve w p with
    | inl e => (w, inl (os_error e))
    | inr i =>
        if decide (i ∈ foreign w) then (w, inl (os_error EPERM))
        else
          (set_inodes (insert i (mkInode (i_node (inode_at w i)) mode)) w,
           inr tt)
    end.

(** The access a mode string of [open] asks for. *)
Record open_flags : Type := mkFlags {
  o_read : bool;
  o_write : bool;
  o_creat : bool;
  o_trunc : bool
}.

(** ["rb"] is [O_RDONLY]; ["wb+"] is [O_RDWR | O_CREAT | O_TRUNC]. *)
Definition mode_rb : open_flags := mkFlags true false false false.
Definition mode_wb_plus : open_flags := mkFlags true true true true.

Definition new_fd (w : world) : nat := fresh (dom (fds w)).

(** The builtin [open(p, mode)], returning the descriptor ([f.fileno()]).
    The path is resolved through symbolic links.  An existing file is
    opened if its permission bits grant the access asked for, and is
    emptied under [O_TRUNC]; a missing one is created under [O_CREAT], with
    mode [0o666 & ~umask] and the process as owner, where an entry can be
    made; a directory cannot be opened for writing. *)
Definition open_ (p : path) (fl : open_flags) : OS nat :=
  fun w =>
    match walk MAXSYMLINKS w p with
    | inl e => (w, inl (os_error e))
    | inr (q, Some i) =>
        let nd := inode_at w i in
        if (negb (o_read fl) || may_read w i) && (negb (o_write fl) || may_write w i)
        then
          let fd := new_fd w in
          let w1 :=
            if o_trunc fl && o_write fl
            then set_inodes (insert i (mkInode (Regular []) (i_mode nd))) w
            else w in
          (set_fds (insert fd (mkOpenFile i (device w q) (o_read fl) (o_write fl))) w1,
           inr fd)
        else (w, inl (os_error EACCES))
    | inr (q, None) =>
        if o_creat fl then
          match (if decide (q ∈ dirs w) then Some EISDIR
                 else create_error w q) with
          | Some e => (w, inl (os_error e))
          | None =>
              let i := fresh_ino w in
              let fd := new_fd w in
              let nd := mkInode (Regular []) (Z.land 0x1b6 (Z.lnot (umask w))) in
              (set_fds (insert fd (mkOpenFile i (device w q) (o_read fl) (o_write fl)))
                 (set_names (insert q i) (set_inodes (insert i nd) w)), inr fd)
          end
        else (w, inl (os_error ENOENT))
    end.

(** [f.close()], as the exit of a [with open(...)] block performs it. *)
Definition close (fd : nat) : OS unit := modify (set_fds (delete fd)).

(** The clone request of [ioctl_ficlone(2)]. *)
Definition FICLONE : Z := 0x40049409.

(** [fcntl.ioctl(fd, request, arg)].  For [FICLONE], [arg] is the descriptor
    of the file to clone from: [fd] must be open for writing and [arg] for
    reading, and both files must be on one file system; where that file
    system implements cloning, the file behind [fd] takes the content of
    the file behind [arg].  No other request is understood by a regular
    file. *)
Definition ioctl (fd : nat) (request : Z) (arg : nat) : OS unit :=
  fun w =>
    match fds w !! fd with
    | None => (w, inl (os_error EBADF))
    | Some d =>
        if Z.eqb request FICLONE then
          match fds w !! arg with
          | None => (w, inl (os_error EBADF))
          | Some s =>
              if of_write d && of_read s then
                if negb (of_dev d =? of_dev s)%nat
                then (w, inl (os_error EXDEV))
                else
                  match cow w with
                  | Some e => (w, inl (os_error e))
                  | None =>
                      let nd := inode_at w (of_ino d) in
                      (set_inodes
                         (insert (of_ino d)
                            (mkInode (i_node (inode_at w (of_ino s))) (i_mode nd))) w,
                       inr tt)
                  end
              else (w, inl (os_error EBADF))
          end
        else (w, inl (os_error ENOTTY))
    end.

(** [os.fsencode] and its inverse: a path as the bytes handed to C. *)
Definition fsencode (p : path) : bytes := list_byte_of_string p.
Definition fsdecode (b : bytes) : path := string_of_list_byte b.

(** The flag of [clonefile] that makes it clone a symbolic link itself. *)
Definition CLONE_NOFOLLOW : Z := 1.

(** The file [clonefile] is to clone: the path reached and its inode. *)
Definition clone_source (w : world) (src : path) (flags : Z)
  : errno_code + (path * nat) :=
  if negb (Z.eqb (Z.land flags CLONE_NOFOLLOW) 0)
  then match names w !! src with
       | Some i => inr (src, i)
       | None => inl ENOENT
       end
  else match walk MAXSYMLINKS w src with
       | inl e => inl e
       | inr (q, Some i) => inr (q, i)
       | inr (_, None) => inl ENOENT
       end.

(** The native [clonefile(src, dst, flags)] of Darwin's C library, called
    through [ctypes] with [use_errno=True]: returns 0 on success, and -1
    with [errno] set on failure.  [src] must be readable; [dst] must not
    exist, must be an entry that can be made, and must lie on the file
    system of [src]; it becomes a new inode of the process with the content
    of [src] and the mode of [src] without the set-user-id and set-group-id
    bits.  [src] is resolved through symbolic links unless [flags] has
    [CLONE_NOFOLLOW].  A failure changes nothing but [errno]. *)
Definition clonefile (src dst : bytes) (flags : Z) : world -> world * Z :=
  fun w =>
    let fail e := (set_c_errno e w, -1) in
    match clone_source w (fsdecode src) flags with
    | inl e => fail e
    | inr (q, i) =>
        if negb (may_read w i) then fail EACCES
        else
          match names w !! fsdecode dst with
          | Some _ => fail EEXIST
          | None =>
              match create_error w (fsdecode dst) with
              | Some e => fail e
              | None =>
                  if negb (device w q =? device w (fsdecode dst))%nat
                  then fail EXDEV
                  else
                    match cow w with
                    | Some e => fail e
                    | None =>
                        let nd := inode_at w i in
                        let j := fresh_ino w in
                        (set_names (insert (fsdecode dst) j)
                           (set_inodes
                              (insert j (mkInode (i_node nd)
                                           (Z.ldiff (i_mode nd) 0xc00)))
                              w), 0)
                    end
              end
          end
    end.

(** ** [dvc/system.py] *)

Module System.

Local Open Scope monad_scope.

(** Modelled from the spec: [dvc.utils.fs.umask], imported by [reflink]
    from a module that is not among these sources; "the process's current
    file-creation mask". *)
Definition dvc_utils_fs_umask : OS Z := gets umask.

Definition hardlink (source link_name : path) : OS unit :=
  os_link source link_name.

Definition symlink (source link_name : path) : OS unit :=
  os_symlink source link_name.

Definition LIBC : string := "libc.dylib".
Definition LIBC_FALLBACK : string := "/usr/lib/libSystem.dylib".

(** [_cdll(name)]: [ctypes.CDLL(name, use_errno=True)]. *)
Definition _cdll (name : string) : OS library :=
  fun w =>
    match dlopen w name with
    | inr lib => (w, inr lib)
    | inl e => (w, inl e)
    end.

(** [hasattr(clib, name)]. *)
Definition hasattr (clib : library) (name : string) : bool :=
  bool_decide (name ∈ exports clib).

(** The call [clonefile(c_char_p(s), c_char_p(d), c_int(f))] through the
    foreign-function handle, with [restype = c_int]. *)
Definition call_clonefile (s d : bytes) (f : Z) : OS Z :=
  fun w => let '(w', r) := clonefile s d f w in (w', inr r).

(** The message written with [logger.debug] before the fall-back is not
    modelled: logging touches nothing the file system model holds. *)
Definition _reflink_darwin (src dst : path) : OS unit :=
  clib <- try_except (_cdll LIBC)
            (fun exc =>
               if bool_decide (errno exc ≠ Some ENOENT) then raise exc
               else _cdll LIBC_FALLBACK) ;;
  (if negb (hasattr clib "clonefile")
   then raise (mkOSError (Some ENOTSUP)
                 "'clonefile' not supported by the standard library")
   else ret tt) ;;;
  r <- call_clonefile (fsencode src) (fsencode dst) 0 ;;
  if negb (Z.eqb r 0) then
    err <- gets c_errno ;;
    raise (mkOSError (Some err) (strerror err))
  else ret tt.

(** The body of the [try]: both files are opened by one [with] statement,
    which closes each file it opened, in reverse order, however the block
    ends. *)
Definition _reflink_linux_body (src dst : path) : OS unit :=
  s <- open_ src mode_rb ;;
  try_finally
    (d <- open_ dst mode_wb_plus ;;
     try_finally (ioctl d FICLONE s) (close d))
    (close s).

Definition _reflink_linux (src dst : path) : OS unit :=
  try_except (_reflink_linux_body src dst)
    (fun exc => suppress (os_unlink dst) ;;; raise exc).

Definition reflink (source link_name : path) : OS unit :=
  umask <- dvc_utils_fs_umask ;;
  system <- gets platform_system ;;
  (if String.eqb system "Darwin" then _reflink_darwin source link_name
   else if String.eqb system "Linux" then _reflink_linux source link_name
   else raise (mkOSError (Some ENOTSUP)
                 ("reflink is not supported on '" ++ system ++ "'"))) ;;;
  os_chmod link_name (Z.land 0x1b6 (Z.lnot umask)).

Definition inode (p : path) : OS nat :=
  st <- os_lstat p ;; ret (st_ino st).

Definition is_symlink (p : path) : OS bool :=
  os_path_islink p.

Definition is_hardlink (p : path) : OS bool :=
  st <- os_stat p ;; ret (1 <? st_nlink st)%nat.

End System.

(** ** [dvc/repo/experiments/init.py] *)

Module ExpInit.

Local Open Scope monad_scope.

(** The exceptions [init] raises or lets through. *)
Inductive exn : Type :=
| DuplicateStageName (msg : string)
| DvcException (msg : string)
| KeyError (key : string)
| AssertionError
| EOFError
| KeyboardInterrupt
| Raised (name msg : string).  (* any other exception of a collaborator *)

(** [Dict[str, str]]; the code never depends on the order of its keys. *)
Abbreviation dict := (gmap string string).

(** The keyword arguments [init] passes to [repo.stage.create].  Exactly one
    of [checkpoints] and [outs] is passed. *)
Record create_kwargs : Type := mkCreate {
  kw_name : string;
  kw_cmd : string;
  kw_deps : list string;
  kw_params : list (string * list string);
  kw_metrics_no_cache : list string;
  kw_plots_no_cache : list string;
  kw_live : option string;
  kw_force : bool;
  kw_checkpoints : option (list string);
  kw_outs : option (list string)
}.

(** The rest of the repository, which [init] only calls: the pipeline file
    object made by [make_dvcfile], the parameter-file loaders, stage
    creation, its serialisation for display and the two methods that write
    to the workspace.  None of it is in these sources, so [init] is
    embedded over any implementation of this interface.  [repo.stage.create]
    builds the stage object in memory and does not write; [dump] and
    [ignore_outs] do. *)
Record Collaborators : Type := mkCollaborators {
  Repo : Type;
  Stage : Type;
  (** [make_dvcfile(repo, path).exists()] *)
  dvcfile_exists : string -> Repo -> bool;
  (** [name in make_dvcfile(repo, path).stages] *)
  dvcfile_has_stage : string -> Repo -> string -> bool;
  (** [LOADERS[ext]], when the table has [ext]; the loader returns the
      top-level keys of the file ([list(LOADERS[ext](path))]) *)
  LOADERS : string -> option (string -> Repo -> exn + list string);
  (** [repo.stage.create] applied to the keyword arguments *)
  stage_create : create_kwargs -> Repo -> exn + Stage;
  (** [dumps_yaml(to_pipeline_file(stage))] *)
  stage_yaml : Stage -> string;
  (** [stage.dump(update_lock=...)] *)
  stage_dump : Stage -> bool -> M Repo exn unit;
  (** [stage.ignore_outs()] *)
  stage_ignore_outs : Stage -> M Repo exn unit
}.

(** *** The terminal *)

Inductive stream : Type := Stdout | Stderr.

(** What [ui.write] and [ui.error_write] are given to show. *)
Inductive renderable : Type :=
| Text (s : string)
| Tree (label : string) (children : list string)
| Rule (style : string)
| Syntax (code lexer theme : string).

(** What the user does at a prompt: type a line, or press Ctrl-C. *)
Inductive keyed : Type :=
| Line (s : string)
| Interrupt.

(** The terminal: what the user will do at the prompts, in order, the
    answers the user will give to yes/no confirmations, and what has been
    written so far. *)
Record Terminal : Type := mkTerminal {
  stdin : list keyed;
  confirms : list bool;
  screen : list (stream * list renderable)
}.

Abbreviation UI := (M Terminal exn).

(** Modelled from the spec: [ui.write] and [ui.error_write] of [dvc.ui],
    which is not among these sources; they show their arguments on the
    standard output and on the standard error. *)
Definition term_write (s : stream) (objs : list renderable) : UI unit :=
  modify (fun t => mkTerminal (stdin t) (confirms t) (screen t ++ [(s, objs)])).

(** [input()]: the next line; [KeyboardInterrupt] when the user presses
    Ctrl-C instead, [EOFError] at the end of the input. *)
Definition term_input : UI string :=
  fun t =>
    match stdin t with
    | [] => (t, inl EOFError)
    | Line l :: rest => (mkTerminal rest (confirms t) (screen t), inr l)
    | Interrupt :: rest =>
        (mkTerminal rest (confirms t) (screen t), inl KeyboardInterrupt)
    end.

(** Modelled from the spec: [ui.confirm(statement)] of [dvc.ui], which is
    not among these sources; the question is put to the user, who confirms
    or declines.  An input that has ended counts as declining. *)
Definition ui_confirm (statement : string) : UI bool :=
  term_write Stdout [Text (statement ++ " [y/n]: ")] ;;;
  fun t =>
    match confirms t with
    | [] => (t, inr false)
    | b :: rest => (mkTerminal (stdin t) rest (screen t), inr b)
    end.

(** *** Strings *)

(** A [str] is held as its UTF-8 encoding, one [ascii] per byte. *)
Definition utf8 (bs : list nat) : string :=
  string_of_list_ascii (List.map ascii_of_nat bs).

(** The characters [str.isspace] accepts, which [str.strip] removes:
    U+0009 to U+000D, U+001C to U+0020, U+0085, U+00A0, U+1680, U+2000 to
    U+200A, U+2028, U+2029, U+202F, U+205F and U+3000. *)
Definition whitespace : list string :=
  List.map utf8
    [ [9]; [10]; [11]; [12]; [13]; [28]; [29]; [30]; [31]; [32];
      [194; 133]; [194; 160]; [225; 154; 128];
      [226; 128; 128]; [226; 128; 129]; [226; 128; 130]; [226; 128; 131];
      [226; 128; 132]; [226; 128; 133]; [226; 128; 134]; [226; 128; 135];
      [226; 128; 136]; [226; 128; 137]; [226; 128; 138];
      [226; 128; 168]; [226; 128; 169]; [226; 128; 175];
      [226; 129; 159]; [227; 128; 128] ]%nat.

(** [s] without its prefix [p], if it starts with [p]. *)
Fixpoint drop_prefix (p s : string) : option string :=
  match p, s with
  | EmptyString, _ => Some s
  | String a p', String b s' =>
      if Ascii.eqb a b then drop_prefix p' s' else None
  | String _ _, EmptyString => None
  end.

(** [s] without one of the strings of [cs] at its start, if it starts with
    one. *)
Fixpoint drop_any (cs : list string) (s : string) : option string :=
  match cs with
  | [] => None
  | c :: cs' =>
      match drop_prefix c s with
      | Some r => Some r
      | None => drop_any cs' s
      end
  end.

(** Removes leading members of [cs], at most [n] of them. *)
Fixpoint lstrip_chars (n : nat) (cs : list string) (s : string) : string :=
  match n with
  | O => s
  | S n' =>
      match drop_any cs s with
      | Some r => lstrip_chars n' cs r
      | None => s
      end
  end.

Fixpoint rev_append (s acc : string) : string :=
  match s with
  | EmptyString => acc
  | String a s' => rev_append s' (String a acc)
  end.

Definition reverse (s : string) : string := rev_append s "".

(** [str.lstrip()] and [str.rstrip()]; every character is at least one
    byte, so the length bounds the number of characters removed. *)
Definition lstrip (s : string) : string :=
  lstrip_chars (String.length s) whitespace s.

Definition rstrip (s : string) : string :=
  reverse (lstrip_chars (String.length s) (List.map reverse whitespace)
             (reverse s)).

(** [str.strip()]. *)
Definition strip (s : string) : string := rstrip (lstrip s).

(** Truth value of a string, and of an optional one ([None] is false). *)
Definition truthy (s : string) : bool := negb (String.eqb s "").

Definition opt_truthy (o : option string) : bool :=
  match o with
  | Some s => truthy s
  | None => false
  end.

(** [funcy.compact] on a list, and on a dictionary. *)
Definition compact_list (l : list (option string)) : list string :=
  omap (fun o => match o with
                 | Some s => if truthy s then Some s else None
                 | None => None
                 end) l.

Definition compact (d : gmap string (option string)) : dict :=
  omap (fun o => match o with
                 | Some s => if truthy s then Some s else None
                 | None => None
                 end) d.

(** [funcy.lremove(d.keys(), seq)]: the members of [seq] that are not keys
    of [d]. *)
Definition lremove_keys (d : dict) (seq : list string) : list string :=
  List.filter (fun k => negb (bool_decide (is_Some (d !! k)))) seq.

(** [dict(pairs)]: a later pair replaces an earlier one with the same
    key. *)
Definition dict_of_pairs {V} (l : list (string * V)) : gmap string V :=
  fold_left (fun m kv => <[fst kv := snd kv]> m) l ∅.

(** [d.pop(key)] without a default: [KeyError] for a missing key. *)
Definition dict_pop {S} (key : string) (d : dict) : M S exn dict :=
  match d !! key with
  | Some _ => ret (delete key d)
  | None => raise (KeyError key)
  end.

(** [sorted(d.values())]. *)
Definition sorted_values (d : dict) : list string :=
  merge_sort (fun a b => Is_true (String.leb a b)) (snd <$> map_to_list d).

(** Splits at the last [c]: the part before it, and the rest from it on. *)
Fixpoint rsplit (c : ascii) (s : string) : option (string * string) :=
  match s with
  | EmptyString => None
  | String a s' =>
      match rsplit c s' with
      | Some (l, r) => Some (String a l, r)
      | None => if Ascii.eqb a c then Some (EmptyString, s) else None
      end
  end.

Fixpoint all_dots (s : string) : bool :=
  match s with
  | EmptyString => true
  | String a s' => Ascii.eqb a "." && all_dots s'
  end.

(** [os.path.splitext]: the extension starts at the last dot of the last
    path component, leading dots of the component apart. *)
Definition splitext (p : string) : string * string :=
  let '(dir, base) :=
    match rsplit "/" p with
    | Some (l, String _ b) => (l ++ "/", b)
    | _ => ("", p)
    end in
  match rsplit "." base with
  | Some (stem, ext) => if all_dots stem then (p, "") else (dir ++ stem, ext)
  | None => (p, "")
  end.

(** *** Prompts *)

Definition PROMPTS (key : string) : option string :=
  if String.eqb key "cmd" then Some "[b]Command[/b] to execute"
  else if String.eqb key "code" then Some "Path to a [b]code[/b] file/directory"
  else if String.eqb key "data" then Some "Path to a [b]data[/b] file/directory"
  else if String.eqb key "models" then Some "Path to a [b]model[/b] file/directory"
  else if String.eqb key "params" then Some "Path to a [b]parameters[/b] file"
  else if String.eqb key "metrics" then Some "Path to a [b]metrics[/b] file"
  else if String.eqb key "plots" then Some "Path to a [b]plots[/b] file/directory"
  else if String.eqb key "live" then Some "Path to log [b]dvclive[/b] outputs"
  else None.

Inductive prompt_cls : Type := RequiredPrompt | SkippablePrompt.

(** [rich.prompt.InvalidResponse], raised and caught inside [ask]. *)
Definition InvalidResponse : Type := string.

(** [rich]'s [Prompt.process_response] for a [str] prompt without choices. *)
Definition base_process_response (value : string) : string := strip value.

Definition required_process_response (value : string)
  : InvalidResponse + string :=
  let ret := base_process_response value in
  if negb (truthy ret)
  then inl "[prompt.invalid]Response required. Please try again."
  else inr ret.

Definition skip_value : string := "n".

Definition process_response (cls : prompt_cls) (value : string)
  : InvalidResponse + option string :=
  match cls with
  | RequiredPrompt =>
      match required_process_response value with
      | inl e => inl e
      | inr ret => inr (Some ret)
      end
  | SkippablePrompt =>
      match required_process_response value with
      | inl e => inl e
      | inr ret => inr (if String.eqb ret skip_value then None else Some ret)
      end
  end.

(** [make_prompt]: [rich]'s own for [RequiredPrompt], the override for
    [SkippablePrompt]; [render_default] only colours the default. *)
Definition make_prompt (cls : prompt_cls) (prompt : string)
    (dflt : option string) : string :=
  match cls with
  | RequiredPrompt =>
      prompt ++ match dflt with Some d => " " ++ d | None => "" end ++ ": "
  | SkippablePrompt =>
      prompt ++ " ["
      ++ match dflt with Some d => d ++ ", " | None => "" end
      ++ skip_value ++ " to omit" ++ "]" ++ ": "
  end.

(** [rich]'s [Prompt.get_input]: the prompt is shown and a line is read. *)
Definition base_get_input (text : string) : UI string :=
  term_write Stderr [Text text] ;;; term_input.

(** [RequiredPrompt.get_input]: on [KeyboardInterrupt] and on [EOFError] an
    empty line is written and the exception is raised again; any other
    exception passes as it is. *)
Definition get_input (text : string) : UI string :=
  try_except (base_get_input text)
    (fun exc =>
       match exc with
       | KeyboardInterrupt | EOFError => term_write Stderr [] ;;; raise exc
       | _ => raise exc
       end).

(** [rich]'s loop behind [prompt_cls.ask(prompt, console=ui.error_console,
    default=...)]: ask until a response is accepted; an empty line takes
    the default when there is one; a rejected response is answered with the
    error and a new round.  Every round reads one line, so the loop is a
    recursion on the lines the input still holds. *)
Fixpoint ask_lines (cls : prompt_cls) (prompt : string) (dflt : option string)
    (lines : list keyed) (t : Terminal) : Terminal * (exn + option string) :=
  match get_input (make_prompt cls prompt dflt) t with
  | (t1, inl exc) => (t1, inl exc)
  | (t1, inr value) =>
      match lines with
      | [] => (t1, inl EOFError)
      | _ :: rest =>
          match dflt, String.eqb value "" with
          | Some d, true => (t1, inr (Some d))
          | _, _ =>
              match process_response cls value with
              | inr r => (t1, inr r)
              | inl err =>
                  ask_lines cls prompt dflt rest
                    (fst (term_write Stderr [Text err] t1))
              end
          end
      end
  end.

Definition ask (cls : prompt_cls) (prompt : string) (dflt : option string)
  : UI (option string) :=
  fun t => ask_lines cls prompt dflt (stdin t) t.

(** [_prompts(keys, defaults)], with the [dict] of [post_processing]. *)
Fixpoint _prompts_pairs (keys : list string) (defaults : dict)
  : UI (list (string * option string)) :=
  match keys with
  | [] => ret []
  | key :: keys' =>
      let prompt_cls :=
        if String.eqb key "cmd" then RequiredPrompt else SkippablePrompt in
      let kwargs := defaults !! key in
      prompt <- match PROMPTS key with
                | Some p => ret p
                | None => raise (KeyError key)
                end ;;
      value <- ask prompt_cls prompt kwargs ;;
      rest <- _prompts_pairs keys' defaults ;;
      ret ((key, value) :: rest)
  end.

Definition _prompts (keys : list string) (defaults : dict)
  : UI (gmap string (option string)) :=
  pairs <- _prompts_pairs keys defaults ;;
  ret (dict_of_pairs pairs).

Definition PIPELINE_FILE_LINK : string :=
  "https://dvc.org/doc/user-guide/project-structure/pipelines-files".

Definition init_interactive (name : string) (defaults provided : dict)
    (show_tree live : bool) : UI dict :=
  let primary :=
    lremove_keys provided ["cmd"; "code"; "data"; "models"; "params"] in
  let secondary :=
    lremove_keys provided (if live then ["live"] else ["metrics"; "plots"]) in
  match primary, secondary with
  | [], [] => ret ∅
  | _, _ =>
      let message :=
        "This command will guide you to set up a " ++ name ++ " stage in "
        ++ "dvc.yaml" ++ "." in
      let doc_link := "See " ++ PIPELINE_FILE_LINK ++ "." in
      term_write Stderr [Text message; Text doc_link; Text ""] ;;;
      (if show_tree then
         let workspace := provided ∪ defaults in
         let workspace := delete "cmd" workspace in
         let workspace :=
           if negb live && negb (bool_decide (is_Some (provided !! "live")))
           then delete "live" workspace else workspace in
         let tree :=
           Tree "DVC assumes the following workspace structure:"
                (List.map (fun value => "[green]" ++ value ++ "[/green]")
                          (sorted_values workspace)) in
         term_write Stderr [tree] ;;;
         term_write Stderr []
       else ret tt) ;;;
      p <- _prompts primary defaults ;;
      s <- _prompts secondary defaults ;;
      ret (compact (s ∪ p))
  end.

(** *** The wizard *)

(** The process state [init] runs in: the repository, the terminal, and
    [logging.root.manager.disable]. *)
Record world (R : Type) : Type := mkWorld {
  repo : R;
  term : Terminal;
  logging_disable : Z
}.

Arguments mkWorld {R} _ _ _.
Arguments repo {R} _.
Arguments term {R} _.
Arguments logging_disable {R} _.

Section WithCollaborators.

Context (C : Collaborators).

Abbreviation IO := (M (world (Repo C)) exn).

Definition on_term {A} (m : UI A) : IO A :=
  fun w => let '(t, r) := m (term w) in (mkWorld (repo w) t (logging_disable w), r).

Definition on_repo {A} (m : M (Repo C) exn A) : IO A :=
  fun w => let '(rp, r) := m (repo w) in (mkWorld rp (term w) (logging_disable w), r).

(** [logging.disable(level)]. *)
Definition logging_disable_set (level : Z) : IO unit :=
  modify (fun w => mkWorld (repo w) (term w) level).

Definition CRITICAL : Z := 50.

(** [with _disable_logging(highest_level): body]. *)
Definition _disable_logging {A} (highest_level : Z) (body : IO A) : IO A :=
  previous_level <- gets logging_disable ;;
  logging_disable_set highest_level ;;;
  try_finally body (logging_disable_set previous_level).

Definition _check_stage_exists (dvcfile : string) (name : string)
    (force : bool) : IO unit :=
  rp <- gets repo ;;
  if negb force && dvcfile_exists C dvcfile rp
     && dvcfile_has_stage C dvcfile rp name
  then
    let hint := "Use '--force' to overwrite." in
    raise (DuplicateStageName
             ("Stage '" ++ name ++ "' already exists in 'dvc.yaml'. " ++ hint))
  else ret tt.

(** [name or type]. *)
Definition name_or (name : option string) (type : string) : string :=
  match name with
  | Some n => if truthy n then n else type
  | None => type
  end.

(** [init].  [defaults or {}] and [overrides or {}] turn [None] into the
    empty dictionary; that [pop] also changes the dictionary of the caller
    is not modelled. *)
Definition init (name : option string) (type : string)
    (defaults overrides : option dict) (interactive force : bool)
  : IO (Stage C) :=
  let dvcfile := "dvc.yaml" in
  let name := name_or name type in
  _check_stage_exists dvcfile name force ;;;
  let defaults := default ∅ defaults in
  let overrides := default ∅ overrides in
  let with_live := String.eqb type "live" in
  defaults <-
    (if interactive then
       on_term (init_interactive name defaults overrides true with_live)
     else if with_live then
       d <- dict_pop "metrics" defaults ;;
       dict_pop "params" d
     else dict_pop "live" defaults) ;;
  let context : dict := overrides ∪ defaults in
  (if bool_decide (is_Some (context !! "cmd")) then ret tt
   else raise AssertionError) ;;;
  params_kv <-
    (if opt_truthy (context !! "params") then
       let path := default "" (context !! "params") in
       let '(_, ext) := splitext path in
       match LOADERS C ext with
       | None => raise (KeyError ext)
       | Some loader =>
           rp <- gets repo ;;
           match loader path rp with
           | inl exc => raise exc
           | inr keys => ret [(path, keys)]
           end
       end
     else ret []) ;;
  let checkpoint_out := opt_truthy (context !! "live") in
  let models := context !! "models" in
  rp <- gets repo ;;
  stage <-
    match stage_create C
            (mkCreate name (default "" (context !! "cmd"))
               (compact_list [context !! "code"; context !! "data"])
               params_kv
               (compact_list [context !! "metrics"])
               (compact_list [context !! "plots"])
               (context !! "live")
               force
               (if checkpoint_out then Some (compact_list [models]) else None)
               (if checkpoint_out then None else Some (compact_list [models])))
            rp with
    | inl exc => raise exc
    | inr stage => ret stage
    end ;;
  (if interactive then
     on_term (term_write Stdout [Rule "green"]) ;;;
     let _yaml := stage_yaml C stage in
     let syn := Syntax _yaml "yaml" "ansi_dark" in
     on_term (term_write Stderr [syn])
   else ret tt) ;;;
  ok <- (if negb interactive then ret true
         else on_term
                (ui_confirm "Do you want to add the above contents to dvc.yaml?")) ;;
  if ok then
    _disable_logging CRITICAL (on_repo (stage_dump C stage false)) ;;;
    on_repo (stage_ignore_outs C stage) ;;;
    ret stage
  else raise (DvcException "Aborting ...").

End WithCollaborators.

End ExpInit.

(** ** Notions and examples the properties are stated with *)

(** Unfolds the operations of the monad. *)
Ltac run :=
  unfold bind, ret, raise, gets, modify, try_except, try_finally, suppress.

(** The target of a symbolic link; [None] for a regular file. *)
Definition link_target (nd : inode) : option path :=
  match i_node nd with
  | Symlink t => Some t
  | Regular _ => None
  end.

(** Two states with the same directory entries in which every inode is the
    same kind of object: paths resolve alike in both. *)
Definition same_links (w w' : world) : Prop :=
  names w = names w'
  ∧ ∀ i, link_target (inode_at w i) = link_target (inode_at w' i).

(** The part of the state no file operation writes. *)
Definition same_env (w w' : world) : Prop :=
  sealed w = sealed w' ∧ cow w = cow w' ∧ umask w = umask w'
  ∧ platform_system w = platform_system w' ∧ dlopen w = dlopen w'
  ∧ dirs w = dirs w' ∧ device w = device w' ∧ foreign w = foreign w'.

Module SystemCases.

Import System.

(** The exception [ctypes.CDLL] raises for a library the dynamic loader
    does not find: an [OSError] made of the text of [dlerror()] alone, so
    without an errno. *)
Definition image_not_found (name : string) : OSError :=
  mkOSError None ("dlopen(" ++ name ++ ", 6): image not found").

(** A small Linux machine: in the working directory, all on one file
    system, a regular file [data.csv] with mode [0o600] and a symbolic link
    [latest] to it, both the process's own; no support for cloning; no
    library can be loaded. *)
Definition w_linux : world :=
  mkWorld (<["data.csv" := 1%nat]> (<["latest" := 2%nat]> ∅))
          (<[1%nat := mkInode (Regular [Byte.x68; Byte.x69]) 0x180]>
             (<[2%nat := mkInode (Symlink "data.csv") 0x1ff]> ∅))
          ∅ {[""]} ∅ (fun _ => 0%nat) ∅ (Some ENOTSUP) 0x12 "Linux"
          (fun name => inl (image_not_found name)) ENONE.

(** The same machine with one setting changed. *)
Definition with_system (name : string) (w : world) : world :=
  mkWorld (names w) (inodes w) (fds w) (dirs w) (sealed w) (device w)
          (foreign w) (cow w) (umask w) name (dlopen w) (c_errno w).

Definition with_cow (c : option errno_code) (w : world) : world :=
  mkWorld (names w) (inodes w) (fds w) (dirs w) (sealed w) (device w)
          (foreign w) c (umask w) (platform_system w) (dlopen w) (c_errno w).

Definition with_sealed (s : gset path) (w : world) : world :=
  mkWorld (names w) (inodes w) (fds w) (dirs w) s (device w)
          (foreign w) (cow w) (umask w) (platform_system w) (dlopen w)
          (c_errno w).

Definition with_dlopen (f : string -> OSError + library) (w : world) : world :=
  mkWorld (names w) (inodes w) (fds w) (dirs w) (sealed w) (device w)
          (foreign w) (cow w) (umask w) (platform_system w) f (c_errno w).

Definition with_dirs (d : gset path) (w : world) : world :=
  mkWorld (names w) (inodes w) (fds w) d (sealed w) (device w)
          (foreign w) (cow w) (umask w) (platform_system w) (dlopen w)
          (c_errno w).

Definition with_device (f : path -> nat) (w : world) : world :=
  mkWorld (names w) (inodes w) (fds w) (dirs w) (sealed w) f
          (foreign w) (cow w) (umask w) (platform_system w) (dlopen w)
          (c_errno w).

Definition with_foreign (f : gset nat) (w : world) : world :=
  mkWorld (names w) (inodes w) (fds w) (dirs w) (sealed w) (device w)
          f (cow w) (umask w) (platform_system w) (dlopen w) (c_errno w).

(** A directory the process cannot write, holding a stale writable
    [copy.csv]; the file system does not clone. *)
Definition w_sealed : world :=
  with_sealed {["copy.csv"]}
    (set_names (insert "copy.csv" 3%nat)
       (set_inodes
          (insert 3%nat (mkInode (Regular [Byte.x6f; Byte.x6c; Byte.x64]) 0x180))
          w_linux)).


(** A Darwin machine on which loading [libc.dylib] fails with the errno
    [ENOENT], while [libSystem.dylib] loads and has [clonefile]. *)
Definition w_darwin : world :=
  with_dlopen
    (fun name =>
       if String.eqb name LIBC_FALLBACK then inr (mkLibrary {["clonefile"]})
       else inl (os_error ENOENT))
    (with_cow None (with_system "Darwin" w_linux)).


(** A Linux machine whose file system clones, with a file [shared.csv] of
    another user that everyone may read and write (mode [0o666]). *)
Definition w_shared : world :=
  with_foreign {[3%nat]}
    (with_cow None
       (set_names (insert "shared.csv" 3%nat)
          (set_inodes
             (insert 3%nat (mkInode (Regular [Byte.x6f; Byte.x6c; Byte.x64]) 0x1b6))
             w_linux))).

(** A machine with a directory [sub] beside the files, and a second file
    system mounted at [mnt]. *)
Definition w_dirs : world :=
  with_device
    (fun p => if String.prefix "mnt/" p then 1%nat else 0%nat)
    (with_dirs {[""; "sub"; "mnt"]} w_linux).

End SystemCases.

Module ExpInitCases.

Import ExpInit.

(** A repository for the examples: the stage names in [dvc.yaml], if the
    file exists, and the ignored outputs.  Creating a stage always works and
    returns its arguments; dumping appends the name; ignoring appends the
    outputs. *)
Record demo_repo : Type := mkDemo {
  pipeline : option (list string);
  ignored : list string
}.

(** The collaborators over that repository. *)
Definition demo : Collaborators :=
  mkCollaborators demo_repo create_kwargs
    (fun _ rp => bool_decide (is_Some (pipeline rp)))
    (fun _ rp n => bool_decide (n ∈ default [] (pipeline rp)))
    (fun ext =>
       if String.eqb ext ".yaml" then Some (fun _ _ => inr ["lr"; "epochs"])
       else None)
    (fun kw _ => inr kw)
    (fun st => String.append "stages: " (kw_name st))
    (fun st _ rp =>
       (mkDemo (Some (app (default [] (pipeline rp)) [kw_name st])) (ignored rp),
        inr tt))
    (fun st rp =>
       (mkDemo (pipeline rp)
               (app (ignored rp)
                    (app (default [] (kw_outs st))
                         (default [] (kw_checkpoints st)))),
        inr tt)).

(** The defaults the command line passes to [init]. *)
Definition demo_defaults : dict :=
  list_to_map
    [("cmd", "python train.py"); ("code", "src"); ("data", "data");
     ("models", "models"); ("params", "params.yaml");
     ("metrics", "metrics.json"); ("plots", "plots"); ("live", "dvclive")].

(** [dvc.yaml] has a stage [train]; the user accepts every default and
    then answers the confirmation with [answer]. *)
Definition demo_world (answer : bool) : world demo_repo :=
  mkWorld (mkDemo (Some ["train"]) [])
          (mkTerminal
             [Line ""; Line ""; Line ""; Line ""; Line ""; Line ""; Line ""]
             [answer] []) 0.

(** What a run left of the repository and of the confirmations still to
    come: the two things the steps before the confirmation do not touch. *)
Definition untouched {R} (w w' : world R) : Prop :=
  repo w' = repo w ∧ confirms (term w') = confirms (term w).

(** A terminal operation that consumes no confirmation. *)
Definition keeps_confirms {A} (m : UI A) : Prop :=
  ∀ t t' r, m t = (t', r) → confirms t' = confirms t.

(** A step of [init] that leaves the repository and the confirmations. *)
Definition silent {R A} (m : M (world R) exn A) : Prop :=
  ∀ w w' r, m w = (w', r) → untouched w w'.

(** The three ways an interactive run of [init] ends, from the state [w] it
    started in.  First: an exception before the question is answered. *)
Definition failed_before {R S} (w w' : world R) (r : exn + S) : Prop :=
  (∃ e, r = inl e) ∧ untouched w w'.

(** Second: the question is answered with no. *)
Definition declined {R S} (w w' : world R) (r : exn + S) : Prop :=
  r = inl (DvcException "Aborting ...")
  ∧ repo w' = repo w
  ∧ (confirms (term w) = false :: confirms (term w')
     ∨ confirms (term w) = [] ∧ confirms (term w') = []).

(** Third: the question is answered with yes; the stage that was created
    is dumped and, if that succeeds, its outputs are ignored. *)
Definition confirmed (C : Collaborators) (w w' : world (Repo C))
    (r : exn + Stage C) : Prop :=
  ∃ kwargs stage,
    stage_create C kwargs (repo w) = inr stage
    ∧ confirms (term w) = true :: confirms (term w')
    ∧ match stage_dump C stage false (repo w) with
      | (rp1, inl e) => repo w' = rp1 ∧ r = inl e
      | (rp1, inr _) =>
          match stage_ignore_outs C stage rp1 with
          | (rp2, inl e) => repo w' = rp2 ∧ r = inl e
          | (rp2, inr _) => repo w' = rp2 ∧ r = inr stage
          end
      end.

(** How an interactive run of [init] ends. *)
Definition outcome (C : Collaborators) (w w' : world (Repo C))
    (r : exn + Stage C) : Prop :=
  failed_before w w' r ∨ declined w w' r ∨ confirmed C w w' r.

(** The collaborators [C] with another pipeline-file object. *)
Definition with_dvcfile (C : Collaborators)
    (ex : string → Repo C → bool) (hs : string → Repo C → string → bool)
  : Collaborators :=
  mkCollaborators (Repo C) (Stage C) ex hs (LOADERS C) (stage_create C)
                  (stage_yaml C) (stage_dump C) (stage_ignore_outs C).

End ExpInitCases.

Module SystemExtraNotions.

(** [w'] is [w] with a clone of inode [i] added under the name [dst]: the
    clone is a new inode [j] with the content of [i] and the mode
    [0o666 & ~umask]; nothing else has changed. *)
Definition clone_added (w w' : world) (i : nat) (dst : path) (j : nat) : Prop :=
  inodes w !! j = None
  ∧ (∀ q, names w !! q ≠ Some j)
  ∧ names w' = <[dst := j]> (names w)
  ∧ inode_at w' j
    = mkInode (i_node (inode_at w i)) (Z.land 0x1b6 (Z.lnot (umask w)))
  ∧ (∀ k, k ≠ j → inode_at w' k = inode_at w k)
  ∧ fds w' = fds w.

End SystemExtraNotions.

Module ExpInitExtraNotions.

Import ExpInit.

(** The keyword arguments [init] builds from its context for
    [repo.stage.create]. *)
Definition init_kwargs (name : string) (context : dict)
    (params_kv : list (string * list string)) (force : bool) : create_kwargs :=
  mkCreate name (default "" (context !! "cmd"))
    (compact_list [context !! "code"; context !! "data"])
    params_kv
    (compact_list [context !! "metrics"])
    (compact_list [context !! "plots"])
    (context !! "live")
    force
    (if opt_truthy (context !! "live")
     then Some (compact_list [context !! "models"]) else None)
    (if opt_truthy (context !! "live")
     then None else Some (compact_list [context !! "models"])).

(** What [stage.dump(update_lock=False)] followed by [stage.ignore_outs()]
    makes of the repository [rp], and what [init] then returns: the stage
    when both succeed, otherwise the exception of the one that failed,
    [ignore_outs] not being called after a failed [dump]. *)
Definition dumped (C : Collaborators) (stage : Stage C) (rp rp' : Repo C)
    (r : exn + Stage C) : Prop :=
  match stage_dump C stage false rp with
  | (rp1, inl e) => rp' = rp1 ∧ r = inl e
  | (rp1, inr _) =>
      match stage_ignore_outs C stage rp1 with
      | (rp2, inl e) => rp' = rp2 ∧ r = inl e
      | (rp2, inr _) => rp' = rp2 ∧ r = inr stage
      end
  end.

(** The defaults a non-interactive [init] keeps: without [metrics] and
    [params] for the type ["live"], without [live] otherwise. *)
Definition kept_defaults (type : string) (defaults : dict) : dict :=
  if String.eqb type "live"
  then delete "params" (delete "metrics" defaults)
  else delete "live" defaults.

(** The computation [m] leaves the part [f] of the state as it was. *)
Definition keeps {S E A X} (f : S → X) (m : M S E A) : Prop :=
  ∀ s s' r, m s = (s', r) → f s' = f s.

(** Input that [ask] answers with an error and a new round: lines that
    are blank once stripped. *)
Definition rejected (used : list keyed) : Prop :=
  ∀ k, k ∈ used → ∃ l, k = Line l ∧ strip l = "".

(** What [ask] returns for the line it accepts, for the prompt class [cls]
    and the default [dflt]: the default, for an empty line; a skip, from a
    skippable prompt given the skip value; or the line stripped of
    surrounding white space, which is not empty and, for a skippable
    prompt, is not the skip value. *)
Definition answered (cls : prompt_cls) (dflt : option string)
    (line : string) (answer : option string) : Prop :=
  match answer with
  | None => cls = SkippablePrompt ∧ strip line = "n"
  | Some v =>
      (dflt = Some v ∧ line = "")
      ∨ (v = strip line ∧ v ≠ "" ∧ (cls = SkippablePrompt → v ≠ "n"))
  end.

(** A no-break space, U+00A0. *)
Definition nbsp : string := utf8 [194; 160]%nat.

End ExpInitExtraNotions.

(** ** Facts about the operating-system model *)

Section OsFacts.

Implicit Types (w : world) (p q : path) (i j : nat).

(** An inode has more than one link exactly when two different paths name
    it. *)
Lemma nlink_gt1_iff w i :
  (1 < nlink w i)%nat ↔
  ∃ q1 q2, q1 ≠ q2 ∧ names w !! q1 = Some i ∧ names w !! q2 = Some i.
Proof.
  unfold nlink.
  pose proof (NoDup_map_to_list (names w)) as Hnd.
  set (l := map_to_list (names w)) in *.
  assert (Hin : ∀ q k, (q, k) ∈ filter (λ kv, kv.2 = i) l ↔
                       k = i ∧ names w !! q = Some k).
  { intros q k. rewrite list_elem_of_filter. unfold l.
    rewrite elem_of_map_to_list. simpl. tauto. }
  assert (Hndf : NoDup (filter (λ kv, kv.2 = i) l)) by by apply NoDup_filter.
  split.
  - intros Hlen.
    destruct (filter (λ kv, kv.2 = i) l) as [|[q1 k1] [|[q2 k2] r]] eqn:Hf;
      simpl in Hlen; try lia.
    assert (H1 : k1 = i ∧ names w !! q1 = Some k1)
      by (apply Hin, list_elem_of_here).
    assert (H2 : k2 = i ∧ names w !! q2 = Some k2)
      by (apply Hin, list_elem_of_further, list_elem_of_here).
    destruct H1 as [-> H1], H2 as [-> H2].
    exists q1, q2. split_and!; try done.
    intros ->. apply NoDup_cons in Hndf as [Hni _].
    apply Hni, list_elem_of_here.
  - intros (q1 & q2 & Hne & H1 & H2).
    assert (E1 : (q1, i) ∈ filter (λ kv, kv.2 = i) l) by by apply Hin.
    assert (E2 : (q2, i) ∈ filter (λ kv, kv.2 = i) l) by by apply Hin.
    destruct (filter (λ kv, kv.2 = i) l) as [|x [|y r]]; simpl; try lia.
    + by apply elem_of_nil in E1.
    + apply list_elem_of_singleton in E1, E2. congruence.
Qed.

Lemma same_links_refl w : same_links w w.
Proof. by split. Qed.

Lemma same_links_trans w1 w2 w3 :
  same_links w1 w2 → same_links w2 w3 → same_links w1 w3.
Proof.
  intros [Hn1 Hi1] [Hn2 Hi2]. split; [congruence|].
  intros i. by rewrite Hi1.
Qed.

Lemma same_env_refl w : same_env w w.
Proof. by repeat split. Qed.

Lemma same_env_trans w1 w2 w3 :
  same_env w1 w2 → same_env w2 w3 → same_env w1 w3.
Proof.
  unfold same_env. intros (?&?&?&?&?&?&?&?) (?&?&?&?&?&?&?&?).
  split_and!; congruence.
Qed.

Lemma walk_ext n w w' p :
  same_links w w' → walk n w p = walk n w' p.
Proof.
  intros [Hn Hi]. revert p. induction n as [|n IH]; intros p; simpl;
    rewrite <- Hn; destruct (names w !! p) as [i|]; try done;
    specialize (Hi i); unfold link_target in Hi;
    destruct (i_node (inode_at w i)), (i_node (inode_at w' i));
    try done; by simplify_eq.
Qed.

Lemma resolve_ext w w' p : same_links w w' → resolve w p = resolve w' p.
Proof. intros H. unfold resolve. by rewrite (walk_ext _ w w'). Qed.

Lemma walk_found n w p q i :
  walk n w p = inr (q, Some i) →
  names w !! q = Some i ∧ link_target (inode_at w i) = None.
Proof.
  revert p. induction n as [|n IH]; intros p; simpl;
    destruct (names w !! p) as [k|] eqn:Hp; try done;
    unfold link_target;
    destruct (i_node (inode_at w k)) eqn:Hk; try done;
    try (intros [= <- <-]; by rewrite Hk).
  apply IH.
Qed.

Lemma walk_missing n w p q :
  walk n w p = inr (q, None) → names w !! q = None.
Proof.
  revert p. induction n as [|n IH]; intros p; simpl;
    destruct (names w !! p) as [k|] eqn:Hp; try (by intros [= <-]);
    destruct (i_node (inode_at w k)); try done.
  apply IH.
Qed.

Lemma resolve_found w p i :
  resolve w p = inr i →
  link_target (inode_at w i) = None ∧ ∃ q, names w !! q = Some i.
Proof.
  unfold resolve. destruct (walk MAXSYMLINKS w p) as [e|[q [k|]]] eqn:Hw; try done.
  intros [= <-]. apply walk_found in Hw as [? ?]. eauto.
Qed.

Lemma fresh_ino_inodes w : inodes w !! fresh_ino w = None.
Proof.
  apply not_elem_of_dom. intros H.
  apply (is_fresh (dom (inodes w) ∪ map_img (names w) ∪ foreign w : gset nat)).
  apply elem_of_union. left. apply elem_of_union. by left.
Qed.

Lemma fresh_ino_names w q : names w !! q ≠ Some (fresh_ino w).
Proof.
  intros H.
  apply (is_fresh (dom (inodes w) ∪ map_img (names w) ∪ foreign w : gset nat)).
  apply elem_of_union. left. apply elem_of_union. right.
  apply elem_of_map_img. eauto.
Qed.

Lemma fresh_ino_own w : fresh_ino w ∉ foreign w.
Proof.
  intros H.
  apply (is_fresh (dom (inodes w) ∪ map_img (names w) ∪ foreign w : gset nat)).
  apply elem_of_union. by right.
Qed.

Lemma new_fd_free w : fds w !! new_fd w = None.
Proof. apply not_elem_of_dom. unfold new_fd. apply is_fresh. Qed.

(** Creating the missing end of a resolution makes the path resolve to the
    new inode. *)
Lemma walk_create n w p q nd w' :
  walk n w p = inr (q, None) →
  link_target nd = None →
  names w' = <[q := fresh_ino w]> (names w) →
  inodes w' = <[fresh_ino w := nd]> (inodes w) →
  walk n w' p = inr (q, Some (fresh_ino w)).
Proof.
  intros Hw Hnd Hn Hi.
  assert (Hq : names w !! q = None) by by eapply walk_missing.
  assert (Hnew : inode_at w' (fresh_ino w) = nd).
  { unfold inode_at. by rewrite Hi, lookup_insert_eq. }
  assert (Hold : ∀ k x, names w !! x = Some k → inode_at w' k = inode_at w k).
  { intros k x Hx. unfold inode_at. rewrite Hi, lookup_insert_ne; [done|].
    intros <-. by eapply fresh_ino_names. }
  revert p Hw. induction n as [|n IH]; intros p; simpl; rewrite Hn;
    (destruct (names w !! p) as [k|] eqn:Hp;
     [ assert (p ≠ q) by congruence;
       rewrite lookup_insert_ne, Hp, (Hold k p) by done
     | intros [= ->]; rewrite lookup_insert_eq, Hnew;
       unfold link_target in Hnd; by destruct (i_node nd) ]);
    destruct (i_node (inode_at w k)); try done.
  apply IH.
Qed.

#[local] Arguments walk : simpl never.

Lemma open_failure p fl w w1 e : open_ p fl w = (w1, inl e) → w1 = w.
Proof.
  unfold open_. destruct (walk MAXSYMLINKS w p) as [?|[q [i|]]].
  - by intros [= <- _].
  - destruct (_ && _); [done|by intros [= <- _]].
  - destruct (o_creat fl); [|by intros [= <- _]].
    destruct (if decide _ then _ else _); [by intros [= <- _]|done].
Qed.

Lemma open_rb_success p w w1 s :
  open_ p mode_rb w = (w1, inr s) →
  ∃ i dev, resolve w p = inr i ∧ s = new_fd w
           ∧ w1 = set_fds (insert s (mkOpenFile i dev true false)) w.
Proof.
  unfold open_, resolve. destruct (walk MAXSYMLINKS w p) as [?|[q [i|]]]; try done.
  simpl. destruct (_ && _); [|done]. intros [= <- <-]. eauto.
Qed.

(** After a successful [open(p, "wb+")] the path resolves to the inode the
    descriptor is on, and no inode has changed its kind. *)
Lemma open_wb_plus_success p w w1 d :
  open_ p mode_wb_plus w = (w1, inr d) →
  ∃ i dev, resolve w1 p = inr i ∧ d = new_fd w
       ∧ fds w1 = <[d := mkOpenFile i dev true true]> (fds w)
       ∧ same_env w w1
       ∧ (resolve w p = inr i ∧ i_mode (inode_at w1 i) = i_mode (inode_at w i)
          ∨ i ∉ foreign w)
       ∧ ∀ k, link_target (inode_at w k) = None →
              link_target (inode_at w1 k) = None.
Proof.
  unfold open_, resolve.
  destruct (walk MAXSYMLINKS w p) as [?|[q [i|]]] eqn:Hw; try done; simpl.
  - destruct (_ && _); [|done]. intros [= <- <-]. exists i, (device w q).
    pose proof (walk_found _ _ _ _ _ Hw) as [Hq Hreg].
    set (w1 := set_fds _ _).
    assert (Hk : ∀ k, link_target (inode_at w k) = None →
                      link_target (inode_at w1 k) = None).
    { intros k Hk. unfold inode_at, w1. simpl.
      destruct (decide (k = i)) as [->|Hne].
      - by rewrite lookup_insert_eq.
      - by rewrite lookup_insert_ne. }
    assert (Hs : same_links w w1).
    { split; [done|]. intros k. destruct (decide (k = i)) as [->|Hne].
      - by rewrite Hreg, Hk.
      - unfold inode_at, w1. simpl. by rewrite lookup_insert_ne. }
    rewrite <- (walk_ext _ _ _ _ Hs), Hw. split_and!; try done.
    left. split; [done|]. unfold inode_at at 1, w1. simpl.
    by rewrite lookup_insert_eq.
  - destruct (if decide _ then _ else _); [done|]. intros [= <- <-].
    exists (fresh_ino w), (device w q).
    set (w1 := set_fds _ _).
    rewrite (walk_create _ w p q (mkInode (Regular []) (Z.land 438 (Z.lnot (umask w)))) w1 Hw) by done.
    split_and!; try done; [right; apply fresh_ino_own|].
    intros k Hk. unfold inode_at, w1. simpl.
    destruct (decide (k = fresh_ino w)) as [->|Hne].
    + by rewrite lookup_insert_eq.
    + by rewrite lookup_insert_ne.
Qed.

Lemma ioctl_failure fd rq arg w w1 e : ioctl fd rq arg w = (w1, inl e) → w1 = w.
Proof.
  unfold ioctl. destruct (fds w !! fd); [|by intros [= <- _]].
  destruct (Z.eqb _ _); [|by intros [= <- _]].
  destruct (fds w !! arg); [|by intros [= <- _]].
  destruct (_ && _); [|by intros [= <- _]].
  destruct (negb _); [by intros [= <- _]|].
  destruct (cow w); [by intros [= <- _]|done].
Qed.

Lemma ioctl_ficlone_success d s w w1 :
  ioctl d FICLONE s w = (w1, inr tt) →
  ∃ od os, fds w !! d = Some od ∧ fds w !! s = Some os
           ∧ of_write od = true ∧ of_read os = true
           ∧ of_dev od = of_dev os ∧ cow w = None
           ∧ w1 = set_inodes
                    (insert (of_ino od)
                       (mkInode (i_node (inode_at w (of_ino os)))
                                (i_mode (inode_at w (of_ino od))))) w.
Proof.
  unfold ioctl. destruct (fds w !! d) as [od|]; [|done].
  destruct (Z.eqb _ _); [|done].
  destruct (fds w !! s) as [os|]; [|done].
  destruct (of_write od) eqn:?, (of_read os) eqn:?; try done; simpl.
  destruct (of_dev od =? of_dev os)%nat eqn:Hdev; [|done]. simpl.
  apply Nat.eqb_eq in Hdev.
  destruct (cow w); [done|]. intros [= <-]. exists od, os. by split_and!.
Qed.

Lemma unlink_outcome p w :
  same_env w (fst (os_unlink p w))
  ∧ inodes (fst (os_unlink p w)) = inodes w
  ∧ (p ∉ sealed w → names (fst (os_unlink p w)) !! p = None)
  ∧ (p ∈ sealed w → fst (os_unlink p w) = w).
Proof.
  unfold os_unlink. destruct (names w !! p) eqn:Hp; simpl.
  - destruct (decide _); simpl; split_and!; try done.
    intros _. apply lookup_delete_eq.
  - by split_and!.
Qed.

Lemma walk_here n w p i :
  names w !! p = Some i → link_target (inode_at w i) = None →
  walk n w p = inr (p, Some i).
Proof.
  unfold link_target. intros Hp Hi.
  destruct n; unfold walk; rewrite Hp; by destruct (i_node (inode_at w i)).
Qed.

Lemma fsdecode_fsencode p : fsdecode (fsencode p) = p.
Proof. apply string_of_list_byte_of_string. Qed.

(** [clonefile] either fails, returning -1 with [errno] set and nothing
    else changed, or returns 0 having created the target as a regular
    file of the process. *)
Lemma clonefile_cases src dst w :
  (∃ e, clonefile (fsencode src) (fsencode dst) 0 w = (set_c_errno e w, -1))
  ∨ (∃ w', clonefile (fsencode src) (fsencode dst) 0 w = (w', 0)
           ∧ same_env w w'
           ∧ ∃ i, resolve w' dst = inr i ∧ i ∉ foreign w').
Proof.
  unfold clonefile, clone_source. rewrite !fsdecode_fsencode.
  change (negb (Z.eqb (Z.land 0 CLONE_NOFOLLOW) 0)) with false. cbv iota.
  destruct (walk MAXSYMLINKS w src) as [e|[q [i|]]] eqn:Hr; [left; eauto| |left; eauto].
  destruct (negb (may_read w i)); [left; eauto|].
  destruct (names w !! dst) eqn:Hd; [left; eauto|].
  destruct (create_error w dst); [left; eauto|].
  destruct (negb _); [left; eauto|].
  destruct (cow w); [left; eauto|].
  right. eexists. split_and!; [done..|].
  exists (fresh_ino w). split; [|exact (fresh_ino_own w)]. unfold resolve.
  apply walk_found in Hr as [_ Hreg].
  erewrite walk_here; [done|simpl; apply lookup_insert_eq|].
  unfold inode_at. simpl. by rewrite lookup_insert_eq.
Qed.

(** [os.chmod] on a path that resolves to a file of the process sets the
    mode [os.stat] then reports. *)
Lemma chmod_then_stat p m w i :
  resolve w p = inr i → i ∉ foreign w →
  ∃ w', os_chmod p m w = (w', inr tt)
        ∧ same_env w w'
        ∧ ∃ st, os_stat p w' = (w', inr st) ∧ st_mode st = m.
Proof.
  intros Hr Hown. unfold os_chmod. rewrite Hr.
  destruct (decide (i ∈ foreign w)); [done|].
  eexists. split_and!; [done..|].
  unfold os_stat.
  rewrite <- (resolve_ext w), Hr.
  - eexists. split; [done|]. unfold stat_of, inode_at. simpl.
    by rewrite lookup_insert_eq.
  - split; [done|]. intros k. unfold inode_at at 2. simpl.
    destruct (decide (k = i)) as [->|Hne].
    + by rewrite lookup_insert_eq.
    + by rewrite lookup_insert_ne.
Qed.

(** [os.chmod] on a file of another user fails and changes nothing. *)
Lemma chmod_foreign p m w i :
  resolve w p = inr i → i ∈ foreign w →
  os_chmod p m w = (w, inl (os_error EPERM)).
Proof.
  intros Hr Hf. unfold os_chmod. rewrite Hr.
  by destruct (decide (i ∈ foreign w)).
Qed.

End OsFacts.

(** ** Properties of [dvc/system.py] *)

Module SystemSpec.

Import System.
Import SystemCases.

(** What the [try] body of [_reflink_linux] does, case by case. *)
Lemma linux_body_cases (src dst : path) (w : world) :
  match open_ src mode_rb w with
  | (w1, inl e) => _reflink_linux_body src dst w = (w1, inl e)
  | (w1, inr s) =>
      match open_ dst mode_wb_plus w1 with
      | (w2, inl e) =>
          _reflink_linux_body src dst w = (set_fds (delete s) w2, inl e)
      | (w2, inr d) =>
          let '(w3, r) := ioctl d FICLONE s w2 in
          _reflink_linux_body src dst w
          = (set_fds (delete s) (set_fds (delete d) w3), r)
      end
  end.
Proof.
  unfold _reflink_linux_body, close. run.
  destruct (open_ src mode_rb w) as [w1 [e|s]]; [done|].
  destruct (open_ dst mode_wb_plus w1) as [w2 [e|d]]; [done|].
  by destruct (ioctl d FICLONE s w2) as [w3 [e|[]]].
Qed.

Lemma set_fds_same_links f w : same_links w (set_fds f w).
Proof. by split. Qed.

Lemma set_fds_same_env f w : same_env w (set_fds f w).
Proof. by repeat split. Qed.

(** A failure inside the body leaves the environment as it was. *)
Lemma linux_body_env (src dst : path) (w w' : world) r :
  _reflink_linux_body src dst w = (w', r) → same_env w w'.
Proof.
  pose proof (linux_body_cases src dst w) as H.
  destruct (open_ src mode_rb w) as [w1 [e|s]] eqn:Hs.
  { rewrite H. intros [= <- _]. apply open_failure in Hs as ->.
    apply same_env_refl. }
  apply open_rb_success in Hs as (i & dev & _ & _ & ->).
  destruct (open_ dst mode_wb_plus _) as [w2 [e|d]] eqn:Hd.
  { rewrite H. intros [= <- _]. apply open_failure in Hd as ->.
    by repeat split. }
  apply open_wb_plus_success in Hd as (j & devj & _ & _ & _ & He & _).
  destruct (ioctl d FICLONE _ w2) as [w3 [e|[]]] eqn:Hi;
    rewrite H; intros [= <- _].
  - apply ioctl_failure in Hi as ->.
    eapply same_env_trans; [|apply set_fds_same_env].
    eapply same_env_trans; [|apply set_fds_same_env]. exact He.
  - apply ioctl_ficlone_success in Hi as (?&?&_&_&_&_&_&_&->).
    eapply same_env_trans; [exact He|]. by repeat split.
Qed.

(** After a successful body the target resolves to a regular file: the
    one it resolved to before, with the mode it had, or a new file of the
    process. *)
Lemma linux_body_success (src dst : path) (w w' : world) :
  _reflink_linux_body src dst w = (w', inr tt) →
  ∃ i, resolve w' dst = inr i
       ∧ (resolve w dst = inr i ∧ i_mode (inode_at w' i) = i_mode (inode_at w i)
          ∨ i ∉ foreign w).
Proof.
  pose proof (linux_body_cases src dst w) as H.
  destruct (open_ src mode_rb w) as [w1 [e|s]] eqn:Hs; [by rewrite H|].
  apply open_rb_success in Hs as (i & dev & Hi & Hsfd & ->).
  destruct (open_ dst mode_wb_plus _) as [w2 [e|d]] eqn:Hd; [by rewrite H|].
  apply open_wb_plus_success
    in Hd as (j & devj & Hj & Hdfd & Hfds & He & Hown & Hreg).
  destruct (ioctl d FICLONE _ w2) as [w3 [e|[]]] eqn:Hio;
    rewrite H; [done|]. intros [= <-]. exists j.
  apply ioctl_ficlone_success
    in Hio as (od & os & Hod & Hos & _ & _ & _ & _ & ->).
  assert (Hne : d ≠ s).
  { rewrite Hdfd. intros Heq.
    pose proof (new_fd_free (set_fds <[s:=mkOpenFile i dev true false]> w)) as Hf.
    rewrite Heq in Hf. simpl in Hf. by rewrite lookup_insert_eq in Hf. }
  rewrite Hfds in Hod, Hos. rewrite lookup_insert_eq in Hod.
  rewrite lookup_insert_ne in Hos by done. simpl in Hos.
  rewrite lookup_insert_eq in Hos. simplify_eq. simpl.
  split.
  - rewrite <- Hj. symmetry. apply resolve_ext.
    eapply same_links_trans; [|apply set_fds_same_links].
    eapply same_links_trans; [|apply set_fds_same_links].
    apply resolve_found in Hj as [Hjreg _].
    apply resolve_found in Hi as [Hireg _].
    split; [done|]. intros k. unfold inode_at at 2. simpl.
    destruct (decide (k = j)) as [->|Hk].
    + rewrite lookup_insert_eq. simpl. rewrite Hjreg.
      symmetry. apply Hreg. exact Hireg.
    + by rewrite lookup_insert_ne.
  - destruct Hown as [[Hr Hm]|Hown]; [left|by right]. split.
    + rewrite <- Hr. apply resolve_ext, set_fds_same_links.
    + unfold inode_at at 1. simpl. rewrite lookup_insert_eq. simpl.
      exact Hm.
Qed.

(** What a path names in the state a run ended in. *)
Lemma names_after_run {A} (r : world * A) (w : world) (a : A)
    (p : path) (v : option nat) :
  r = (w, a) → names w !! p = v → names (fst r) !! p = v.
Proof. by intros ->. Qed.

(** A path without an entry does not resolve. *)
Lemma resolve_no_entry (p : path) (w : world) :
  names w !! p = None → resolve w p = inl ENOENT.
Proof. intros Hp. unfold resolve, MAXSYMLINKS. simpl. by rewrite Hp. Qed.

(** What [reflink] makes of a platform branch that succeeded. *)
Lemma reflink_after_branch (source link_name : path) (w w1 : world) :
  (platform_system w = "Linux"
   ∧ _reflink_linux source link_name w = (w1, inr tt))
  ∨ (platform_system w = "Darwin"
     ∧ _reflink_darwin source link_name w = (w1, inr tt)) →
  reflink source link_name w
  = os_chmod link_name (Z.land 0x1b6 (Z.lnot (umask w))) w1.
Proof.
  unfold reflink, dvc_utils_fs_umask. run.
  intros [[-> Hrun]|[-> Hrun]]; simpl; by rewrite Hrun.
Qed.

(** [_reflink_darwin] succeeds only by a call of [clonefile] that
    returns 0, and ends in the state that call left. *)
Lemma darwin_success_clonefile (src dst : path) (w w1 : world) :
  _reflink_darwin src dst w = (w1, inr tt) →
  clonefile (fsencode src) (fsencode dst) 0 w = (w1, 0).
Proof.
  assert (Hcall : ∀ lib,
    ((if negb (hasattr lib "clonefile")
      then raise (mkOSError (Some ENOTSUP)
             "'clonefile' not supported by the standard library")
      else ret tt) ;;;
     r <- call_clonefile (fsencode src) (fsencode dst) 0 ;;
     if negb (Z.eqb r 0) then
       err <- gets c_errno ;;
       raise (mkOSError (Some err) (strerror err))
     else ret tt)%monad w = (w1, inr tt) →
    clonefile (fsencode src) (fsencode dst) 0 w = (w1, 0)).
  { intros lib. unfold call_clonefile. run.
    destruct (negb (hasattr lib "clonefile")); [done|].
    destruct (clonefile _ _ 0 w) as [w' r].
    destruct (Z.eqb r 0) eqn:Hr; simpl; [|done].
    apply Z.eqb_eq in Hr as ->. by intros [= <-]. }
  unfold _reflink_darwin at 1. unfold _cdll. run.
  destruct (dlopen w LIBC) as [exc|lib]; [|apply Hcall].
  case_bool_decide; [done|].
  destruct (dlopen w LIBC_FALLBACK) as [exc'|lib]; [done|apply Hcall].
Qed.

(** A successful [_reflink_darwin] has made the target a new file of the
    process. *)
Lemma darwin_success (src dst : path) (w w1 : world) :
  _reflink_darwin src dst w = (w1, inr tt) →
  same_env w w1 ∧ ∃ i, resolve w1 dst = inr i ∧ i ∉ foreign w1.
Proof.
  intros Hrun. apply darwin_success_clonefile in Hrun.
  destruct (clonefile_cases src dst w)
    as [[e He]|(w' & Hc & He & Hres)]; rewrite Hrun in *; [done|].
  by injection Hc as <-.
Qed.


(** C1.  On a platform whose identifier is neither ["Linux"] nor
    ["Darwin"], [reflink] raises an [OSError] of kind [Unsupported]
    (errno [ENOTSUP]) for every source and target, and the state it leaves
    is the state it found: no file is created at the target, the platform
    test comes before any file operation. *)
Theorem reflink_unsupported_platform (source link_name : path) (w : world) :
  platform_system w ≠ "Darwin" →
  platform_system w ≠ "Linux" →
  ∃ e, reflink source link_name w = (w, inl e)
       ∧ Unsupported e
       ∧ e = mkOSError (Some ENOTSUP)
               ("reflink is not supported on '" ++ platform_system w ++ "'").
Proof.
  intros HD HL.
  exists (mkOSError (Some ENOTSUP)
            ("reflink is not supported on '" ++ platform_system w ++ "'")).
  split_and!; [|reflexivity..].
  unfold reflink, dvc_utils_fs_umask. run.
  apply String.eqb_neq in HD, HL. by rewrite HD, HL.
Qed.

Lemma reflink_unsupported_platform_witness :
  platform_system (with_system "Windows" w_linux) ≠ "Darwin"
  ∧ platform_system (with_system "Windows" w_linux) ≠ "Linux"
  ∧ ∃ e, reflink "data.csv" "copy.csv" (with_system "Windows" w_linux)
         = (with_system "Windows" w_linux, inl e)
         ∧ Unsupported e
         ∧ e = mkOSError (Some ENOTSUP) "reflink is not supported on 'Windows'".
Proof.
  assert (HD : platform_system (with_system "Windows" w_linux) ≠ "Darwin")
    by by vm_compute.
  assert (HL : platform_system (with_system "Windows" w_linux) ≠ "Linux")
    by by vm_compute.
  split_and!; [exact HD|exact HL|].
  exact (reflink_unsupported_platform "data.csv" "copy.csv"
           (with_system "Windows" w_linux) HD HL).
Defined.

(** C5.  [inode] returns the number the path's own directory entry names
    and leaves the state alone; it raises an [OSError] (errno [ENOENT])
    when the path has no entry.  A symbolic link is not followed: for a
    link whose target is a different object, the number returned differs
    from the number returned for its target. *)
Theorem inode_own_entry (p : path) (w : world) :
  (∀ i, names w !! p = Some i → inode p w = (w, inr i))
  ∧ (names w !! p = None → inode p w = (w, inl (os_error ENOENT)))
  ∧ (∀ i t j, names w !! p = Some i →
              i_node (inode_at w i) = Symlink t →
              names w !! t = Some j → i ≠ j →
              snd (inode p w) = inr i ∧ snd (inode p w) ≠ snd (inode t w)).
Proof.
  unfold inode, os_lstat. run. split_and!.
  - by intros i ->.
  - by intros ->.
  - intros i t j -> _ -> Hne. simpl. split; [done|congruence].
Qed.

Lemma inode_own_entry_witness :
  inode "latest" w_linux = (w_linux, inr 2%nat)
  ∧ inode "missing" w_linux = (w_linux, inl (os_error ENOENT))
  ∧ snd (inode "latest" w_linux) ≠ snd (inode "data.csv" w_linux).
Proof.
  split_and!.
  - by apply (inode_own_entry "latest" w_linux).
  - by apply (inode_own_entry "missing" w_linux).
  - by apply (inode_own_entry "latest" w_linux) with (i := 2%nat) (t := "data.csv") (j := 1%nat).
Defined.

(** C6.  [is_hardlink] follows symbolic links: when the path resolves to an
    inode, it returns whether that inode has more than one link, and this is
    the case exactly when two different directory entries name the inode;
    when the path has no entry, or does not resolve, it raises an
    [OSError].  The state is left alone. *)
Theorem is_hardlink_iff_two_entries (p : path) (w : world) :
  (∀ i, resolve w p = inr i →
        ∃ b, is_hardlink p w = (w, inr b)
             ∧ (b = true ↔
                ∃ q1 q2, q1 ≠ q2 ∧ names w !! q1 = Some i
                         ∧ names w !! q2 = Some i))
  ∧ (names w !! p = None → is_hardlink p w = (w, inl (os_error ENOENT)))
  ∧ (∀ e, resolve w p = inl e → is_hardlink p w = (w, inl (os_error e))).
Proof.
  unfold is_hardlink, os_stat. run. split_and!.
  - intros i ->. eexists. split; [reflexivity|]. simpl.
    rewrite <- nlink_gt1_iff. apply Nat.ltb_lt.
  - intros Hp. unfold resolve, MAXSYMLINKS. simpl. by rewrite Hp.
  - by intros e ->.
Qed.

Lemma is_hardlink_iff_two_entries_witness :
  is_hardlink "latest" (set_names (insert "hard" 1%nat) w_linux)
  = (set_names (insert "hard" 1%nat) w_linux, inr true)
  ∧ is_hardlink "latest" w_linux = (w_linux, inr false)
  ∧ is_hardlink "missing" w_linux = (w_linux, inl (os_error ENOENT)).
Proof.
  split_and!.
  - destruct (is_hardlink_iff_two_entries "latest"
                (set_names (insert "hard" 1%nat) w_linux)) as [H _].
    destruct (H 1%nat eq_refl) as (b & -> & Hb).
    f_equal. f_equal. apply Hb. by exists "data.csv", "hard".
  - destruct (is_hardlink_iff_two_entries "latest" w_linux) as [H _].
    destruct (H 1%nat eq_refl) as (b & -> & Hb).
    f_equal. f_equal. destruct b; [|done].
    destruct Hb as [Hb _]. destruct (Hb eq_refl) as (q1 & q2 & Hne & H1 & H2).
    exfalso. apply Hne.
    change (names w_linux) with (<["data.csv" := 1%nat]> (<["latest" := 2%nat]> (∅ : gmap path nat))) in H1, H2.
    apply lookup_insert_Some in H1 as [[<- _]|[_ H1]];
      apply lookup_insert_Some in H2 as [[<- _]|[_ H2]]; try done;
      repeat match goal with
        | H : <[_:=_]> _ !! _ = Some _ |- _ =>
            apply lookup_insert_Some in H as [[_ ?]|[_ H]]; try done
        end.
  - by apply (is_hardlink_iff_two_entries "missing" w_linux).
Defined.

(** C7.  [is_symlink] never raises and leaves the state alone: it returns
    [False] for a path without an entry, and otherwise tells whether the
    entry itself is a symbolic link, whatever the link points to. *)
Theorem is_symlink_total (p : path) (w : world) :
  ∃ b, is_symlink p w = (w, inr b)
       ∧ (names w !! p = None → b = false)
       ∧ (∀ i, names w !! p = Some i →
               (b = true ↔ ∃ t, i_node (inode_at w i) = Symlink t)).
Proof.
  unfold is_symlink, os_path_islink, os_lstat. run.
  destruct (names w !! p) as [i|] eqn:Hp; simpl.
  - eexists. split_and!; [reflexivity|done|].
    intros ? [= <-]. destruct (i_node (inode_at w i)); split; try done.
    + by intros [? ?].
    + eauto.
  - exists false. split_and!; done.
Qed.

Lemma is_symlink_total_witness :
  is_symlink "missing" w_linux = (w_linux, inr false)
  ∧ is_symlink "latest" (set_names (delete "data.csv") w_linux)
    = (set_names (delete "data.csv") w_linux, inr true).
Proof.
  split.
  - destruct (is_symlink_total "missing" w_linux) as (b & -> & Hb & _).
    by rewrite Hb.
  - destruct (is_symlink_total "latest" (set_names (delete "data.csv") w_linux))
      as (b & -> & _ & Hb).
    f_equal. f_equal. apply (Hb 2%nat); [done|]. by exists "data.csv".
Defined.

(** C8.  When the target path already has an entry, [hardlink] raises an
    [OSError] for every source ([ENOENT] for a source without an entry,
    [EEXIST] otherwise) and the state is the one it found: the source and
    the file already at the target keep their content. *)
Theorem hardlink_existing_target (source link_name : path) (w : world) :
  is_Some (names w !! link_name) →
  hardlink source link_name w
  = (w, inl (os_error (match names w !! source with
                       | Some _ => EEXIST
                       | None => ENOENT
                       end))).
Proof.
  intros [j Hj]. unfold hardlink, os_link.
  rewrite Hj. by destruct (names w !! source).
Qed.

Lemma hardlink_existing_target_witness :
  is_Some (names w_linux !! "latest")
  ∧ hardlink "data.csv" "latest" w_linux = (w_linux, inl (os_error EEXIST)).
Proof.
  assert (H : is_Some (names w_linux !! "latest")) by by eexists.
  split; [exact H|].
  exact (hardlink_existing_target "data.csv" "latest" w_linux H).
Defined.

(** C2, as stated, fails.  With [copy.csv] already there, writable, in a
    directory that cannot be written, [open] empties the file, the clone
    request fails with [ENOTSUP], [os.unlink] fails with [EACCES] and that
    error is suppressed: [ENOTSUP] propagates and the emptied file is still
    at the target. *)
Lemma reflink_linux_target_remains :
  snd (_reflink_linux "data.csv" "copy.csv" w_sealed) = inl (os_error ENOTSUP)
  ∧ names (fst (_reflink_linux "data.csv" "copy.csv" w_sealed)) !! "copy.csv"
    = Some 3%nat
  ∧ inode_at (fst (_reflink_linux "data.csv" "copy.csv" w_sealed)) 3
    = mkInode (Regular []) 0x180
  ∧ ¬ (∀ src dst w e,
         snd (_reflink_linux src dst w) = inl e →
         names (fst (_reflink_linux src dst w)) !! dst = None).
Proof.
  assert (H1 : snd (_reflink_linux "data.csv" "copy.csv" w_sealed)
               = inl (os_error ENOTSUP)) by by vm_compute.
  assert (H2 : names (fst (_reflink_linux "data.csv" "copy.csv" w_sealed))
               !! "copy.csv" = Some 3%nat) by by vm_compute.
  split_and!; [exact H1|exact H2|by vm_compute|].
  intros H. pose proof (H "data.csv" "copy.csv" w_sealed _ H1) as H'.
  discriminate (eq_trans (eq_sym H2) H').
Qed.

(** C2, amended.  [_reflink_linux] opens the source with ["rb"] and the
    target with ["wb+"] and issues [ioctl(d, FICLONE, s)] on the two
    descriptors.  When the [ioctl] fails, both files are closed,
    [os.unlink] is tried on the target with its own error suppressed, and
    the error of the [ioctl] is the one raised; the same holds for any
    other failure inside the [try].  Afterwards the target has no entry,
    unless its directory refuses the removal: then the state is the one
    the failure left. *)
Theorem reflink_linux_failure (src dst : path) (w : world) :
  (∀ w1 s w2 d w3 e,
     open_ src mode_rb w = (w1, inr s) →
     open_ dst mode_wb_plus w1 = (w2, inr d) →
     ioctl d FICLONE s w2 = (w3, inl e) →
     ∃ w4, w4 = set_fds (delete s) (set_fds (delete d) w2)
           ∧ _reflink_linux src dst w = (fst (os_unlink dst w4), inl e)
           ∧ (dst ∉ sealed w → names (fst (os_unlink dst w4)) !! dst = None)
           ∧ (dst ∈ sealed w → fst (os_unlink dst w4) = w4))
  ∧ (∀ w4 e,
       _reflink_linux_body src dst w = (w4, inl e) →
       _reflink_linux src dst w = (fst (os_unlink dst w4), inl e)
       ∧ (dst ∉ sealed w → names (fst (os_unlink dst w4)) !! dst = None)
       ∧ (dst ∈ sealed w → fst (os_unlink dst w4) = w4)).
Proof.
  assert (HB : ∀ w4 e,
       _reflink_linux_body src dst w = (w4, inl e) →
       _reflink_linux src dst w = (fst (os_unlink dst w4), inl e)
       ∧ (dst ∉ sealed w → names (fst (os_unlink dst w4)) !! dst = None)
       ∧ (dst ∈ sealed w → fst (os_unlink dst w4) = w4)).
  { intros w4 e Hb. pose proof (linux_body_env _ _ _ _ _ Hb) as (Hs&_).
    rewrite Hs. destruct (unlink_outcome dst w4) as (_&_&H1&H2).
    split_and!; [|done..].
    unfold _reflink_linux. run. by rewrite Hb. }
  split; [|exact HB].
  intros w1 s w2 d w3 e Hs Hd Hi.
  pose proof (linux_body_cases src dst w) as Hc.
  rewrite Hs, Hd, Hi in Hc.
  apply ioctl_failure in Hi as ->.
  eexists. split; [reflexivity|]. by apply HB.
Qed.

Lemma reflink_linux_failure_witness :
  _reflink_linux "data.csv" "copy.csv" w_linux
  = (set_inodes (insert 3%nat (mkInode (Regular []) 0x1a4)) w_linux,
     inl (os_error ENOTSUP))
  ∧ names (fst (_reflink_linux "data.csv" "copy.csv" w_linux)) !! "copy.csv"
    = None.
Proof.
  destruct (reflink_linux_failure "data.csv" "copy.csv" w_linux) as [HA _].
  assert (Hs : open_ "data.csv" mode_rb w_linux
               = (fst (open_ "data.csv" mode_rb w_linux), inr 0%nat))
    by (vm_compute; reflexivity).
  assert (Hd : open_ "copy.csv" mode_wb_plus
                 (fst (open_ "data.csv" mode_rb w_linux))
               = (fst (open_ "copy.csv" mode_wb_plus
                         (fst (open_ "data.csv" mode_rb w_linux))),
                  inr 1%nat))
    by (vm_compute; reflexivity).
  assert (Hi : ioctl 1%nat FICLONE 0%nat
                 (fst (open_ "copy.csv" mode_wb_plus
                         (fst (open_ "data.csv" mode_rb w_linux))))
               = (fst (open_ "copy.csv" mode_wb_plus
                         (fst (open_ "data.csv" mode_rb w_linux))),
                  inl (os_error ENOTSUP)))
    by (vm_compute; reflexivity).
  destruct (HA _ _ _ _ _ _ Hs Hd Hi) as (w4 & -> & Hrun & Hgone & _).
  assert (Hfree : "copy.csv" ∉ sealed w_linux).
  { change (sealed w_linux) with (∅ : gset path). apply not_elem_of_empty. }
  specialize (Hgone Hfree).
  split.
  - refine (eq_trans Hrun _). vm_compute. reflexivity.
  - exact (names_after_run _ _ _ _ _ Hrun Hgone).
Defined.

(** C3, as stated, fails.  On a Linux machine whose file system clones,
    with the target [shared.csv] already there as a file of another user
    that everyone may write, the clone branch succeeds: the file is opened,
    emptied and given the content of the source.  [os.chmod] then fails
    with [EPERM], since only the owner may change the mode: [reflink]
    raises, and the mode of the target is still [0o666], not
    [0o666 & ~umask], which is [0o644] here. *)
Lemma reflink_foreign_target_mode_stays :
  snd (_reflink_linux "data.csv" "shared.csv" w_shared) = inr tt
  ∧ snd (reflink "data.csv" "shared.csv" w_shared) = inl (os_error EPERM)
  ∧ inode_at (fst (reflink "data.csv" "shared.csv" w_shared)) 3
    = mkInode (Regular [Byte.x68; Byte.x69]) 0x1b6
  ∧ Z.land 0x1b6 (Z.lnot (umask w_shared)) = 0x1a4
  ∧ ¬ (∀ source link_name w w1,
         (platform_system w = "Linux"
          ∧ _reflink_linux source link_name w = (w1, inr tt))
         ∨ (platform_system w = "Darwin"
            ∧ _reflink_darwin source link_name w = (w1, inr tt)) →
         ∃ w2 st, reflink source link_name w = (w2, inr tt)
                  ∧ os_stat link_name w2 = (w2, inr st)
                  ∧ st_mode st = Z.land 0x1b6 (Z.lnot (umask w))).
Proof.
  assert (H1 : snd (reflink "data.csv" "shared.csv" w_shared)
               = inl (os_error EPERM)) by by vm_compute.
  split_and!; [by vm_compute|exact H1|by vm_compute|by vm_compute|].
  intros H.
  destruct (H "data.csv" "shared.csv" w_shared
              (fst (_reflink_linux "data.csv" "shared.csv" w_shared)))
    as (w2 & st & Hrun & _).
  { left. split; by vm_compute. }
  rewrite Hrun in H1. discriminate H1.
Qed.

(** C3, amended.  Whenever the platform branch of [reflink] succeeds, the
    target resolves to a file.  If that file is the process's own, and it
    is whenever the target had no entry before the call, [reflink]
    succeeds and the mode [os.stat] then reports for the target is
    [0o666 & ~umask], whatever the permission bits of the source.  If the
    file belongs to another user, which happens only on Linux and only for
    a target that was there before, [reflink] raises the [EPERM] of
    [os.chmod] and the target keeps the mode it had. *)
Theorem reflink_mode_after_clone (source link_name : path) (w w1 : world) :
  (platform_system w = "Linux"
   ∧ _reflink_linux source link_name w = (w1, inr tt))
  ∨ (platform_system w = "Darwin"
     ∧ _reflink_darwin source link_name w = (w1, inr tt)) →
  ∃ i, resolve w1 link_name = inr i
       ∧ (i ∉ foreign w →
          ∃ w2 st, reflink source link_name w = (w2, inr tt)
                   ∧ os_stat link_name w2 = (w2, inr st)
                   ∧ st_mode st = Z.land 0x1b6 (Z.lnot (umask w)))
       ∧ (i ∈ foreign w →
          reflink source link_name w = (w1, inl (os_error EPERM))
          ∧ platform_system w = "Linux"
          ∧ resolve w link_name = inr i
          ∧ i_mode (inode_at w1 i) = i_mode (inode_at w i))
       ∧ (names w !! link_name = None → i ∉ foreign w).
Proof.
  intros Hbranch.
  assert (Hpre : ∃ i, resolve w1 link_name = inr i
                      ∧ foreign w1 = foreign w
                      ∧ (platform_system w = "Linux"
                         ∧ resolve w link_name = inr i
                         ∧ i_mode (inode_at w1 i) = i_mode (inode_at w i)
                         ∨ i ∉ foreign w)).
  { destruct Hbranch as [[Hsys Hrun]|[Hsys Hrun]].
    - unfold _reflink_linux in Hrun. revert Hrun. run.
      destruct (_reflink_linux_body source link_name w) as [w' [e|[]]] eqn:Hb.
      { by destruct (os_unlink link_name w'). }
      intros [= <-].
      pose proof (linux_body_env _ _ _ _ _ Hb) as (_&_&_&_&_&_&_&Hf).
      destruct (linux_body_success _ _ _ _ Hb) as (i & Hi & Hown).
      exists i. split_and!; [done|done|].
      destruct Hown as [[? ?]|?]; [left|right]; done.
    - destruct (darwin_success _ _ _ _ Hrun)
        as ((_&_&_&_&_&_&_&Hf) & i & Hi & Hown).
      exists i. split_and!; [done|done|]. right. by rewrite Hf. }
  destruct Hpre as (i & Hi & Hf & Hown).
  rewrite (reflink_after_branch _ _ _ _ Hbranch).
  exists i. split_and!; [exact Hi| | |].
  - intros Hmine. rewrite <- Hf in Hmine.
    destruct (chmod_then_stat link_name (Z.land 0x1b6 (Z.lnot (umask w)))
                w1 i Hi Hmine) as (w2 & Hch & _ & st & Hst & Hm).
    by exists w2, st.
  - intros Hother. destruct Hown as [(Hsys & Hr & Hm)|Hmine]; [|done].
    split_and!; try done. apply (chmod_foreign _ _ _ i); [done|].
    by rewrite Hf.
  - intros Hfree Hother. destruct Hown as [(_ & Hr & _)|Hmine]; [|done].
    rewrite (resolve_no_entry _ _ Hfree) in Hr. discriminate Hr.
Qed.

Lemma reflink_mode_after_clone_witness :
  (∃ w2 st, reflink "data.csv" "copy.csv" (with_cow None w_linux) = (w2, inr tt)
            ∧ os_stat "copy.csv" w2 = (w2, inr st)
            ∧ st_mode st = 0x1a4)
  ∧ (∃ w2 st, reflink "data.csv" "copy.csv" w_darwin = (w2, inr tt)
              ∧ os_stat "copy.csv" w2 = (w2, inr st)
              ∧ st_mode st = 0x1a4)
  ∧ reflink "data.csv" "shared.csv" w_shared
    = (fst (_reflink_linux "data.csv" "shared.csv" w_shared),
       inl (os_error EPERM)).
Proof.
  split_and!.
  - destruct (reflink_mode_after_clone "data.csv" "copy.csv"
                (with_cow None w_linux)
                (fst (_reflink_linux "data.csv" "copy.csv"
                        (with_cow None w_linux))))
      as (i & _ & Hmine & _ & Hnew).
    { left. split; by vm_compute. }
    apply Hmine, Hnew. by vm_compute.
  - destruct (reflink_mode_after_clone "data.csv" "copy.csv" w_darwin
                (fst (_reflink_darwin "data.csv" "copy.csv" w_darwin)))
      as (i & _ & Hmine & _ & Hnew).
    { right. split; by vm_compute. }
    apply Hmine, Hnew. by vm_compute.
  - destruct (reflink_mode_after_clone "data.csv" "shared.csv" w_shared
                (fst (_reflink_linux "data.csv" "shared.csv" w_shared)))
      as (i & Hi & _ & Hother & _).
    { left. split; by vm_compute. }
    apply Hother.
    assert (Hi3 : i = 3%nat).
    { vm_compute in Hi. by injection Hi as <-. }
    rewrite Hi3. change (foreign w_shared) with ({[3%nat]} : gset nat).
    by apply elem_of_singleton.
Defined.




End SystemSpec.

(** ** Properties of [dvc/repo/experiments/init.py] *)

Module ExpInitSpec.

Import ExpInit.
Import ExpInitCases.

Lemma bind_inv {S E A B} (m : M S E A) (k : A → M S E B) s s' r :
  bind m k s = (s', r) →
  (∃ e, m s = (s', inl e) ∧ r = inl e)
  ∨ (∃ a s1, m s = (s1, inr a) ∧ k a s1 = (s', r)).
Proof.
  unfold bind. destruct (m s) as [s1 [e|a]].
  - intros [= <- <-]. left. eauto.
  - intros H. right. eauto.
Qed.

Lemma keeps_ret {A} (a : A) : keeps_confirms (ret a).
Proof. by intros t t' r [= <- _]. Qed.

Lemma keeps_raise {A} (e : exn) : keeps_confirms (raise (A := A) e).
Proof. by intros t t' r [= <- _]. Qed.

Lemma keeps_bind {A B} (m : UI A) (k : A → UI B) :
  keeps_confirms m → (∀ a, keeps_confirms (k a)) → keeps_confirms (bind m k).
Proof.
  intros Hm Hk t t' r H.
  apply bind_inv in H as [(e & H & _)|(a & t1 & H1 & H2)].
  - by eapply Hm.
  - rewrite (Hk _ _ _ _ H2). by eapply Hm.
Qed.

Lemma keeps_term_write s objs : keeps_confirms (term_write s objs).
Proof. by intros t t' r [= <- _]. Qed.

Lemma keeps_term_input : keeps_confirms term_input.
Proof.
  intros t t' r. unfold term_input.
  destruct (stdin t) as [|[l|] rest]; by intros [= <- _].
Qed.

Lemma keeps_base_get_input text : keeps_confirms (base_get_input text).
Proof.
  unfold base_get_input. apply keeps_bind; [apply keeps_term_write|].
  intros _. apply keeps_term_input.
Qed.

Lemma keeps_get_input text : keeps_confirms (get_input text).
Proof.
  unfold get_input. intros t t' r. unfold try_except.
  destruct (base_get_input text t) as [t1 [e|a]] eqn:H1.
  - intros H2. apply keeps_base_get_input in H1. rewrite <- H1. revert H2.
    destruct e; simpl; try apply keeps_raise;
      (apply keeps_bind; [apply keeps_term_write|]; intros _;
       apply keeps_raise).
  - intros [= <- _]. by eapply keeps_base_get_input.
Qed.

Lemma keeps_ask cls prompt dflt : keeps_confirms (ask cls prompt dflt).
Proof.
  unfold ask. intros t. generalize (stdin t) as lines. intros lines.
  revert t. induction lines as [|l lines IH]; intros t t' r; simpl;
    destruct (get_input _ t) as [t1 [e|value]] eqn:Hg;
    apply keeps_get_input in Hg; try (intros [= <- _]; done).
  assert (Hrest : match process_response cls value with
                  | inl err =>
                      ask_lines cls prompt dflt lines
                        (fst (term_write Stderr [Text err] t1))
                  | inr r0 => (t1, inr r0)
                  end = (t', r) → confirms t' = confirms t).
  { destruct (process_response cls value); [|by intros [= <- _]].
    intros H. apply IH in H. by rewrite H. }
  destruct dflt as [d|]; [|exact Hrest].
  destruct (String.eqb value ""); [by intros [= <- _]|exact Hrest].
Qed.

Lemma keeps_prompts_pairs keys defaults :
  keeps_confirms (_prompts_pairs keys defaults).
Proof.
  induction keys as [|key keys IH]; simpl; [apply keeps_ret|].
  apply keeps_bind.
  { destruct (PROMPTS key); [apply keeps_ret|apply keeps_raise]. }
  intros p. apply keeps_bind; [apply keeps_ask|].
  intros v. apply keeps_bind; [exact IH|]. intros. apply keeps_ret.
Qed.

Lemma keeps_prompts keys defaults : keeps_confirms (_prompts keys defaults).
Proof.
  unfold _prompts. apply keeps_bind; [apply keeps_prompts_pairs|].
  intros. apply keeps_ret.
Qed.

Lemma keeps_init_interactive name defaults provided show_tree live :
  keeps_confirms (init_interactive name defaults provided show_tree live).
Proof.
  unfold init_interactive.
  assert (H : keeps_confirms
    (term_write Stderr
       [Text ("This command will guide you to set up a " ++ name ++ " stage in "
              ++ "dvc.yaml" ++ ".");
        Text ("See " ++ PIPELINE_FILE_LINK ++ "."); Text ""] ;;;
     (if show_tree then
        term_write Stderr
          [Tree "DVC assumes the following workspace structure:"
             (List.map (fun value => "[green]" ++ value ++ "[/green]")
                (sorted_values
                   (if negb live && negb (bool_decide (is_Some (provided !! "live")))
                    then delete "live" (delete "cmd" (provided ∪ defaults))
                    else delete "cmd" (provided ∪ defaults))))] ;;;
        term_write Stderr []
      else ret tt) ;;;
     p <- _prompts
            (lremove_keys provided ["cmd"; "code"; "data"; "models"; "params"])
            defaults ;;
     s <- _prompts
            (lremove_keys provided (if live then ["live"] else ["metrics"; "plots"]))
            defaults ;;
     ret (compact (s ∪ p)))%monad).
  { apply keeps_bind; [apply keeps_term_write|]. intros _.
    apply keeps_bind.
    { destruct show_tree; [|apply keeps_ret].
      apply keeps_bind; [apply keeps_term_write|]. intros _.
      apply keeps_term_write. }
    intros _. apply keeps_bind; [apply keeps_prompts|]. intros p.
    apply keeps_bind; [apply keeps_prompts|]. intros s. apply keeps_ret. }
  destruct (lremove_keys provided ["cmd"; "code"; "data"; "models"; "params"]);
    [|exact H].
  destruct (lremove_keys provided (if live then ["live"] else ["metrics"; "plots"]));
    [apply keeps_ret|exact H].
Qed.

Lemma untouched_refl {R} (w : world R) : untouched w w.
Proof. by split. Qed.

Lemma untouched_trans {R} (w1 w2 w3 : world R) :
  untouched w1 w2 → untouched w2 w3 → untouched w1 w3.
Proof. unfold untouched. intros [? ?] [? ?]. split; congruence. Qed.

Lemma silent_ret {R A} (a : A) : silent (ret (S := world R) a).
Proof. intros w w' r [= <- _]. apply untouched_refl. Qed.

Lemma silent_raise {R A} (e : exn) : silent (raise (S := world R) (A := A) e).
Proof. intros w w' r [= <- _]. apply untouched_refl. Qed.

Lemma silent_gets {R A} (f : world R → A) : silent (gets f).
Proof. intros w w' r [= <- _]. apply untouched_refl. Qed.

Lemma silent_bind {R A B} (m : M (world R) exn A) (k : A → M (world R) exn B) :
  silent m → (∀ a, silent (k a)) → silent (bind m k).
Proof.
  intros Hm Hk w w' r H.
  apply bind_inv in H as [(e & H & _)|(a & w1 & H1 & H2)].
  - by eapply Hm.
  - eapply untouched_trans; [by eapply Hm|by eapply Hk].
Qed.

Lemma silent_on_term (C : Collaborators) {A} (m : UI A) :
  keeps_confirms m → silent (on_term C m).
Proof.
  intros Hm w w' r. unfold on_term.
  destruct (m (term w)) as [t r'] eqn:H. intros [= <- _].
  split; [done|]. simpl. by eapply Hm.
Qed.

Lemma silent_dict_pop {R} key (d : dict) : silent (dict_pop (S := world R) key d).
Proof.
  unfold dict_pop. destruct (d !! key); [apply silent_ret|apply silent_raise].
Qed.

Lemma silent_check_stage_exists (C : Collaborators) dvcfile name force :
  silent (_check_stage_exists C dvcfile name force).
Proof.
  unfold _check_stage_exists. apply silent_bind; [apply silent_gets|].
  intros rp. destruct (_ && _); [apply silent_raise|apply silent_ret].
Qed.

Section Outcome.

Context (C : Collaborators).

Lemma outcome_untouched w w1 w' r :
  untouched w w1 → outcome C w1 w' r → outcome C w w' r.
Proof.
  intros [Hr Hc] [[He Hu]|[(He & Hrp & Hcf)|(kw & stage & Hmk & Hcf & Hd)]].
  - left. split; [done|]. eapply untouched_trans; [by split|done].
  - right. left. unfold declined. by rewrite <- Hr, <- Hc.
  - right. right. exists kw, stage. by rewrite <- Hr, <- Hc.
Qed.

(** A step that touches neither the repository nor the pending
    confirmations either ends the run with its exception or hands over to
    the rest, with what [Q] records of its result. *)
Lemma outcome_step {A} (Q : A → world (Repo C) → Prop)
    (m : M (world (Repo C)) exn A)
    (k : A → M (world (Repo C)) exn (Stage C)) w w' r :
  silent m →
  (∀ a w1, m w = (w1, inr a) → Q a w1) →
  (∀ a w1, Q a w1 → k a w1 = (w', r) → outcome C w1 w' r) →
  bind m k w = (w', r) → outcome C w w' r.
Proof.
  intros Hm HQ Hk H.
  apply bind_inv in H as [(e & H & ->)|(a & w1 & H1 & H2)].
  - left. split; [eauto|]. by eapply Hm.
  - eapply outcome_untouched; [by eapply Hm|]. eapply Hk; [|done]. by apply HQ.
Qed.

(** The end of [init]: the question, and what follows each answer. *)
Lemma outcome_confirm kwargs (stage : Stage C) statement w w' r :
  stage_create C kwargs (repo w) = inr stage →
  (ok <- on_term C (ui_confirm statement) ;;
   if ok then
     _disable_logging C CRITICAL (on_repo C (stage_dump C stage false)) ;;;
     on_repo C (stage_ignore_outs C stage) ;;;
     ret stage
   else raise (DvcException "Aborting ..."))%monad w = (w', r) →
  outcome C w w' r.
Proof.
  intros Hmk.
  unfold on_term, ui_confirm, term_write, _disable_logging,
    logging_disable_set, on_repo. run. simpl.
  destruct (confirms (term w)) as [|[] rest] eqn:Hcf; simpl.
  - intros [= <- <-]. right. left. split_and!; [done..|]. right. by rewrite Hcf.
  - intros H. right. right. exists kwargs, stage. rewrite Hcf.
    split; [done|].
    destruct (stage_dump C stage false (repo w)) as [rp1 [e|[]]]; simpl in H.
    { injection H as <- <-. done. }
    destruct (stage_ignore_outs C stage rp1) as [rp2 [e|[]]];
      simpl in H; injection H as <- <-; done.
  - intros [= <- <-]. right. left. split_and!; [done..|]. left. by rewrite Hcf.
Qed.

Lemma init_interactive_outcome name type defaults overrides force w w' r :
  init C name type defaults overrides true force w = (w', r) →
  outcome C w w' r.
Proof.
  unfold init. cbv zeta.
  apply (outcome_step (λ _ _, True));
    [apply silent_check_stage_exists|done|]. intros _ w1 _.
  apply (outcome_step (λ _ _, True)); [|done|].
  { apply silent_on_term, keeps_init_interactive. }
  intros dflts w2 _.
  apply (outcome_step (λ _ _, True)); [|done|].
  { case_bool_decide; [apply silent_ret|apply silent_raise]. }
  intros _ w3 _.
  apply (outcome_step (λ _ _, True)); [|done|].
  { destruct (opt_truthy _); [|apply silent_ret].
    destruct (splitext _) as [? ext].
    destruct (LOADERS C ext) as [loader|]; [|apply silent_raise].
    apply silent_bind; [apply silent_gets|]. intros rp.
    destruct (loader _ rp); [apply silent_raise|apply silent_ret]. }
  intros params_kv w4 _.
  apply (outcome_step (λ rp w5, rp = repo w5)); [apply silent_gets| |].
  { by intros rp w5 [= <- <-]. }
  intros rp w5 ->.
  match goal with
  | |- bind (match stage_create C ?kw _ with _ => _ end) _ _ = _ → _ =>
      apply (outcome_step (λ stage w6, stage_create C kw (repo w6) = inr stage))
  end.
  { destruct (stage_create C _ _); [apply silent_raise|apply silent_ret]. }
  { intros stage w6. destruct (stage_create C _ _) as [e|st] eqn:Hmk; [done|].
    by intros [= <- <-]. }
  intros stage w6 Hmk.
  apply (outcome_step (λ _ w7, repo w7 = repo w6)).
  { apply silent_bind; [apply silent_on_term, keeps_term_write|].
    intros _. apply silent_on_term, keeps_term_write. }
  { intros [] w7 Hshow.
    assert (Hs : silent
              (on_term C (term_write Stdout [Rule "green"]) ;;;
               on_term C (term_write Stderr
                            [Syntax (stage_yaml C stage) "yaml" "ansi_dark"]))%monad).
    { apply silent_bind; [apply silent_on_term, keeps_term_write|].
      intros _. apply silent_on_term, keeps_term_write. }
    by apply Hs in Hshow as [? _]. }
  intros _ w7 Hrepo. simpl. eapply outcome_confirm. by rewrite Hrepo.
Qed.

End Outcome.

(** C9.  Without [force], when [dvc.yaml] exists and has a stage of the
    name [init] is going to use ([name or type]), [init] raises
    [DuplicateStageName] and the state is the one it started in: nothing
    was asked, shown, created or written.  With [force] the check returns
    at once for every pipeline file, and [init] does not depend on what the
    pipeline file holds. *)
Theorem init_duplicate_stage (C : Collaborators) (name : option string)
    (type : string) (defaults overrides : option dict) (interactive : bool)
    (w : world (Repo C)) :
  (dvcfile_exists C "dvc.yaml" (repo w) = true →
   dvcfile_has_stage C "dvc.yaml" (repo w) (name_or name type) = true →
   init C name type defaults overrides interactive false w
   = (w, inl (DuplicateStageName
                ("Stage '" ++ name_or name type
                 ++ "' already exists in 'dvc.yaml'. Use '--force' to overwrite."))))
  ∧ (∀ dvcfile n, _check_stage_exists C dvcfile n true w = (w, inr tt))
  ∧ (∀ ex hs,
       init (with_dvcfile C ex hs) name type defaults overrides interactive true w
       = init C name type defaults overrides interactive true w).
Proof.
  split_and!.
  - intros Hex Hhas. unfold init, _check_stage_exists. run.
    by rewrite Hex, Hhas.
  - done.
  - done.
Qed.

Lemma init_duplicate_stage_witness :
  dvcfile_exists demo "dvc.yaml" (repo (demo_world true)) = true
  ∧ dvcfile_has_stage demo "dvc.yaml" (repo (demo_world true)) "train" = true
  ∧ init demo (Some "train") "default" (Some demo_defaults) None true false
      (demo_world true)
    = (demo_world true,
       inl (DuplicateStageName
              "Stage 'train' already exists in 'dvc.yaml'. Use '--force' to overwrite.")).
Proof.
  assert (H1 : dvcfile_exists demo "dvc.yaml" (repo (demo_world true)) = true)
    by by vm_compute.
  assert (H2 : dvcfile_has_stage demo "dvc.yaml" (repo (demo_world true))
                 (name_or (Some "train") "default") = true) by by vm_compute.
  split_and!; [exact H1|exact H2|].
  destruct (init_duplicate_stage demo (Some "train") "default"
              (Some demo_defaults) None true (demo_world true)) as [H _].
  exact (H H1 H2).
Defined.

(** C10.  An interactive run of [init] ends in one of three ways: with an
    exception raised before the question was answered, the repository
    untouched; with the question answered no, [DvcException] raised and the
    repository untouched; or with the question answered yes, followed by
    [stage.dump(update_lock=False)] and, if that succeeds,
    [stage.ignore_outs()] on the repository, the stage being returned when
    both succeed.  So a stage is returned only after a yes, and unless the
    user's next answer is a yes, [init] raises and the repository, the
    pipeline file with it, is as it was. *)
Theorem init_confirmation (C : Collaborators) (name : option string)
    (type : string) (defaults overrides : option dict) (force : bool)
    (w w' : world (Repo C)) (r : exn + Stage C) :
  init C name type defaults overrides true force w = (w', r) →
  outcome C w w' r
  ∧ (∀ stage, r = inr stage → confirms (term w) = true :: confirms (term w'))
  ∧ ((∀ rest, confirms (term w) ≠ true :: rest) →
     repo w' = repo w ∧ ∃ e, r = inl e).
Proof.
  intros H. apply init_interactive_outcome in H.
  split_and!; [exact H| |].
  - intros stage ->.
    destruct H as [[[e He] _]|[(He & _)|(kw & st & _ & Hcf & _)]];
      [done..|exact Hcf].
  - intros Hno.
    destruct H as [[He [Hr _]]|[(He & Hr & _)|(kw & st & _ & Hcf & _)]].
    + done.
    + split; [done|eauto].
    + by apply Hno in Hcf.
Qed.

Lemma init_confirmation_witness :
  init demo None "default" (Some demo_defaults) None true false (demo_world false)
  = (fst (init demo None "default" (Some demo_defaults) None true false
            (demo_world false)),
     inl (DvcException "Aborting ..."))
  ∧ repo (fst (init demo None "default" (Some demo_defaults) None true false
                 (demo_world false)))
    = mkDemo (Some ["train"]) []
  ∧ repo (fst (init demo None "default" (Some demo_defaults) None true false
                 (demo_world true)))
    = mkDemo (Some ["train"; "default"]) ["models"].
Proof.
  assert (Hrun : init demo None "default" (Some demo_defaults) None true false
                   (demo_world false)
                 = (fst (init demo None "default" (Some demo_defaults) None true
                           false (demo_world false)),
                    inl (DvcException "Aborting ..."))) by by vm_compute.
  split_and!; [exact Hrun| |by vm_compute].
  destruct (init_confirmation demo None "default" (Some demo_defaults) None false
              (demo_world false) _ _ Hrun) as (_ & _ & Hno).
  apply Hno. intros rest. discriminate.
Defined.

End ExpInitSpec.

(** ** The model on the scenarios of the specification *)

Module Scenarios.

Import SystemCases.

(** After [hardlink(data.csv, hard.csv)] both names have the same number and
    [is_hardlink] holds of the source. *)
Example hardlink_then_is_hardlink :
  snd (bind (System.hardlink "data.csv" "hard.csv")
            (fun _ => System.is_hardlink "data.csv") w_linux) = inr true
  ∧ snd (bind (System.hardlink "data.csv" "hard.csv")
              (fun _ => System.inode "hard.csv") w_linux)
    = snd (System.inode "data.csv" w_linux).
Proof. split; by vm_compute. Qed.

(** After [symlink(data.csv, link)] the link is a symbolic link and the
    source is not; deleting the source leaves a dangling link, which is
    still a symbolic link and can no longer be opened. *)
Example symlink_then_is_symlink :
  snd (bind (System.symlink "data.csv" "link")
            (fun _ => System.is_symlink "link") w_linux) = inr true
  ∧ snd (bind (System.symlink "data.csv" "link")
              (fun _ => System.is_symlink "data.csv") w_linux) = inr false
  ∧ snd (bind (System.symlink "data.csv" "link")
              (fun _ => bind (os_unlink "data.csv")
                 (fun _ => System.is_symlink "link")) w_linux) = inr true
  ∧ snd (bind (System.symlink "data.csv" "link")
              (fun _ => bind (os_unlink "data.csv")
                 (fun _ => open_ "link" mode_rb)) w_linux)
    = inl (os_error ENOENT).
Proof. split_and!; by vm_compute. Qed.

(** A clone has the content of its source. *)
Example reflink_copies_content :
  let w' := fst (System.reflink "data.csv" "copy.csv" (with_cow None w_linux)) in
  (i_node ∘ inode_at w' <$> names w' !! "copy.csv")
  = Some (Regular [Byte.x68; Byte.x69]).
Proof. by vm_compute. Qed.

(** Nothing can be linked or cloned into a directory that does not
    exist, on either platform. *)
Example missing_directory :
  System.hardlink "data.csv" "nodir/hard.csv" w_linux
  = (w_linux, inl (os_error ENOENT))
  ∧ System.symlink "data.csv" "nodir/link" w_linux
    = (w_linux, inl (os_error ENOENT))
  ∧ System.reflink "data.csv" "nodir/copy.csv" (with_cow None w_linux)
    = (with_cow None w_linux, inl (os_error ENOENT))
  ∧ snd (System.reflink "data.csv" "nodir/copy.csv" w_darwin)
    = inl (os_error ENOENT)
  ∧ System.hardlink "data.csv" "data.csv/hard.csv" w_linux
    = (w_linux, inl (os_error ENOTDIR)).
Proof. split_and!; vm_compute; reflexivity. Qed.

(** Nor can anything be made at the path of a directory. *)
Example target_is_directory :
  System.hardlink "data.csv" "sub" w_dirs = (w_dirs, inl (os_error EEXIST))
  ∧ System.symlink "data.csv" "sub" w_dirs = (w_dirs, inl (os_error EEXIST))
  ∧ System.reflink "data.csv" "sub" (with_cow None w_dirs)
    = (with_cow None w_dirs, inl (os_error EISDIR))
  ∧ snd (System.reflink "data.csv" "sub"
           (with_system "Darwin"
              (with_dlopen (dlopen w_darwin) (with_cow None w_dirs))))
    = inl (os_error EEXIST).
Proof. split_and!; vm_compute; reflexivity. Qed.

(** A relative link target is taken from the directory of the link. *)
Example symlink_in_directory :
  let w' := fst (System.symlink "data.csv" "sub/link" w_dirs) in
  snd (System.is_hardlink "sub/link" w') = inl (os_error ENOENT)
  ∧ snd (System.is_hardlink "sub/link"
           (set_names (insert "sub/data.csv" 1%nat) w')) = inr true.
Proof. split; vm_compute; reflexivity. Qed.

(** A clone cannot cross file systems. *)
Example reflink_across_devices :
  snd (System.reflink "data.csv" "mnt/copy.csv" (with_cow None w_dirs))
  = inl (os_error EXDEV)
  ∧ names (fst (System.reflink "data.csv" "mnt/copy.csv"
                  (with_cow None w_dirs))) !! "mnt/copy.csv" = None.
Proof. split; vm_compute; reflexivity. Qed.

Example strip_examples :
  ExpInit.strip (ExpInit.utf8 [194; 160; 110; 227; 128; 128]%nat) = "n"
  ∧ ExpInit.strip (ExpInit.utf8 [9; 97; 32; 98; 10]%nat) = "a b"
  ∧ ExpInit.strip (ExpInit.utf8 [195; 160]%nat) = ExpInit.utf8 [195; 160]%nat.
Proof. split_and!; reflexivity. Qed.

Example splitext_examples :
  ExpInit.splitext "params.yaml" = ("params", ".yaml")
  ∧ ExpInit.splitext "conf.d/params" = ("conf.d/params", "")
  ∧ ExpInit.splitext "dir/.hidden" = ("dir/.hidden", "")
  ∧ ExpInit.splitext "a/b.tar.gz" = ("a/b.tar", ".gz").
Proof. split_and!; reflexivity. Qed.

Example process_response_examples :
  ExpInit.process_response ExpInit.SkippablePrompt "  n " = inr None
  ∧ ExpInit.process_response ExpInit.SkippablePrompt " src/train.py"
    = inr (Some "src/train.py")
  ∧ ExpInit.process_response ExpInit.RequiredPrompt "   "
    = inl "[prompt.invalid]Response required. Please try again.".
Proof. split_and!; reflexivity. Qed.

End Scenarios.

(** ** Further properties of [dvc/system.py] *)

Module SystemExtra.

Import System.
Import SystemCases.
Import SystemExtraNotions.

Lemma walk_absent n (w : world) (p : path) :
  names w !! p = None → walk n w p = inr (p, None).
Proof. intros Hp. destruct n; unfold walk; by rewrite Hp. Qed.

Lemma resolve_here (w : world) (p : path) (i : nat) :
  names w !! p = Some i → link_target (inode_at w i) = None →
  resolve w p = inr i.
Proof. intros Hp Hi. unfold resolve. by rewrite (walk_here _ _ _ i). Qed.

(** X1.  When [hardlink] succeeds, the source had an entry, the target
    had none, the directory of the target exists and both paths lie on one
    file system; the call has only added the entry: no inode is created or
    changed, every other path names what it named, source and target
    report the same [inode], and when the source is a regular file
    [is_hardlink] holds of both.  Across file systems [hardlink] fails
    with [EXDEV] and changes nothing. *)
Theorem hardlink_shares_inode (source link_name : path) (w : world) :
  (∀ w', hardlink source link_name w = (w', inr tt) →
     ∃ i, names w !! source = Some i
          ∧ names w !! link_name = None
          ∧ dirname link_name ∈ dirs w
          ∧ device w source = device w link_name
          ∧ inodes w' = inodes w
          ∧ (∀ q, q ≠ link_name → names w' !! q = names w !! q)
          ∧ inode source w' = (w', inr i)
          ∧ inode link_name w' = (w', inr i)
          ∧ (link_target (inode_at w i) = None →
             is_hardlink source w' = (w', inr true)
             ∧ is_hardlink link_name w' = (w', inr true)))
  ∧ (is_Some (names w !! source) →
     names w !! link_name = None →
     parent_error w link_name = None →
     device w source ≠ device w link_name →
     hardlink source link_name w = (w, inl (os_error EXDEV))).
Proof.
  split.
  - intros w'. unfold hardlink, os_link.
    destruct (names w !! source) as [i|] eqn:Hs; [|done].
    destruct (names w !! link_name) eqn:Hd; [done|].
    unfold parent_error. destruct (String.eqb link_name ""); [done|].
    destruct (decide (link_name ∈ dirs w)); [done|].
    destruct (decide (dirname link_name ∈ dirs w)) as [Hdir|];
      [|by destruct (names w !! dirname link_name)].
    destruct (device w source =? device w link_name)%nat eqn:Hdev; [|done].
    apply Nat.eqb_eq in Hdev. simpl.
    destruct (decide (link_name ∈ sealed w)); [done|]. intros [= <-].
    assert (Hne : source ≠ link_name) by congruence.
    assert (Hs' : names (set_names (insert link_name i) w) !! source = Some i)
      by (simpl; by rewrite lookup_insert_ne).
    assert (Hd' : names (set_names (insert link_name i) w) !! link_name = Some i)
      by (simpl; by rewrite lookup_insert_eq).
    exists i. split_and!; try done.
    + intros q Hq. simpl. by rewrite lookup_insert_ne.
    + unfold inode, os_lstat. run. by rewrite Hs'.
    + unfold inode, os_lstat. run. by rewrite Hd'.
    + intros Hreg.
      assert (Hl : (1 <? nlink (set_names (insert link_name i) w) i)%nat = true).
      { apply Nat.ltb_lt, nlink_gt1_iff. by exists source, link_name. }
      unfold is_hardlink, os_stat. run.
      rewrite !(resolve_here _ _ i) by done. simpl. by rewrite Hl.
  - intros [i Hs] Hd Hp Hdev. unfold hardlink, os_link.
    rewrite Hs, Hd, Hp.
    apply Nat.eqb_neq in Hdev. by rewrite Hdev.
Qed.

Lemma hardlink_shares_inode_witness :
  (∃ i, names w_dirs !! "data.csv" = Some i
        ∧ inode "sub/hard.csv" (fst (hardlink "data.csv" "sub/hard.csv" w_dirs))
          = (fst (hardlink "data.csv" "sub/hard.csv" w_dirs), inr i)
        ∧ is_hardlink "data.csv"
            (fst (hardlink "data.csv" "sub/hard.csv" w_dirs))
          = (fst (hardlink "data.csv" "sub/hard.csv" w_dirs), inr true))
  ∧ hardlink "data.csv" "mnt/hard.csv" w_dirs = (w_dirs, inl (os_error EXDEV)).
Proof.
  split.
  - destruct (hardlink_shares_inode "data.csv" "sub/hard.csv" w_dirs) as [H _].
    destruct (H (fst (hardlink "data.csv" "sub/hard.csv" w_dirs)))
      as (i & Hi & _ & _ & _ & _ & _ & _ & H2 & H3).
    { vm_compute. reflexivity. }
    exists i. split_and!; [done..|]. apply H3.
    assert (Hi1 : i = 1%nat).
    { vm_compute in Hi. by injection Hi as <-. }
    rewrite Hi1. vm_compute. reflexivity.
  - apply (hardlink_shares_inode "data.csv" "mnt/hard.csv" w_dirs).
    + by eexists.
    + reflexivity.
    + vm_compute. reflexivity.
    + vm_compute. discriminate.
Defined.

Lemma linked_more_than_once_insert (w w' : world) (dst : path) (i j : nat) :
  names w' = <[dst := j]> (names w) → names w !! dst = None → j ≠ i →
  (1 <? nlink w' i)%nat = (1 <? nlink w i)%nat.
Proof.
  intros Hn Hd Hj. apply eq_true_iff_eq. rewrite !Nat.ltb_lt, !nlink_gt1_iff.
  assert (Hq : ∀ q, names w' !! q = Some i ↔ names w !! q = Some i).
  { intros q. rewrite Hn. destruct (decide (q = dst)) as [->|Hne].
    - rewrite lookup_insert_eq, Hd. split; congruence.
    - by rewrite lookup_insert_ne. }
  split; intros (q1 & q2 & Hne & H1 & H2); exists q1, q2;
    split_and!; try done; by apply Hq.
Qed.

(** X2.  When [symlink] succeeds, the source string is not empty and the
    target had no entry; the target is then a symbolic link and a new
    object, whose [inode] differs from that of every existing entry; every
    other path keeps its entry and its answer to [is_symlink]; and when
    the source, taken from the directory of the link, is a regular file,
    [is_hardlink] of the link is the answer that file gave, since that
    call follows the link.  With an empty source [symlink] fails with
    [ENOENT], and otherwise to a target that exists with [EEXIST]; both
    change nothing. *)
Theorem symlink_creates_link (source link_name : path) (w : world) :
  (∀ w', symlink source link_name w = (w', inr tt) →
     source ≠ ""
     ∧ names w !! link_name = None
     ∧ dirname link_name ∈ dirs w
     ∧ is_symlink link_name w' = (w', inr true)
     ∧ (∀ q, q ≠ link_name →
             names w' !! q = names w !! q
             ∧ snd (is_symlink q w') = snd (is_symlink q w))
     ∧ (∀ q j, names w !! q = Some j → snd (inode link_name w') ≠ inr j)
     ∧ (∀ i, names w !! link_path link_name source = Some i →
             link_target (inode_at w i) = None →
             snd (is_hardlink link_name w')
             = snd (is_hardlink (link_path link_name source) w)))
  ∧ (source = "" → symlink source link_name w = (w, inl (os_error ENOENT)))
  ∧ (source ≠ "" → is_Some (names w !! link_name) →
     symlink source link_name w = (w, inl (os_error EEXIST))).
Proof.
  split_and!.
  - intros w0. unfold symlink, os_symlink.
    destruct (String.eqb source "") eqn:Hsrc; [done|].
    apply String.eqb_neq in Hsrc.
    destruct (names w !! link_name) eqn:Hd; [done|].
    unfold create_error, parent_error.
    destruct (String.eqb link_name ""); [done|].
    destruct (decide (link_name ∈ dirs w)); [done|].
    destruct (decide (dirname link_name ∈ dirs w)) as [Hdir|];
      [|by destruct (names w !! dirname link_name)].
    destruct (decide (link_name ∈ sealed w)); [done|]. intros [= <-].
    set (w' := set_names (insert link_name (fresh_ino w))
                 (set_inodes (insert (fresh_ino w) (mkInode (Symlink source) 0x1ff)) w)).
    assert (Hold : ∀ q j, names w !! q = Some j → inode_at w' j = inode_at w j).
    { intros q j Hq. unfold inode_at, w'. simpl. rewrite lookup_insert_ne; [done|].
      intros <-. by eapply fresh_ino_names. }
    assert (Hnew : inode_at w' (fresh_ino w) = mkInode (Symlink source) 0x1ff).
    { unfold inode_at, w'. simpl. by rewrite lookup_insert_eq. }
    assert (Hnames : ∀ q, q ≠ link_name → names w' !! q = names w !! q).
    { intros q Hq. unfold w'. simpl. by rewrite lookup_insert_ne. }
    split_and!; try done.
    + unfold is_symlink, os_path_islink, os_lstat. run.
      replace (names w' !! link_name) with (Some (fresh_ino w))
        by (unfold w'; simpl; by rewrite lookup_insert_eq).
      unfold stat_of. by rewrite Hnew.
    + intros q Hq. split; [by apply Hnames|].
      unfold is_symlink, os_path_islink, os_lstat. run.
      rewrite (Hnames q Hq). destruct (names w !! q) as [j|] eqn:Hj; [|done].
      simpl. unfold stat_of. simpl. by rewrite (Hold q j Hj).
    + intros q j Hq. unfold inode, os_lstat. run.
      replace (names w' !! link_name) with (Some (fresh_ino w))
        by (unfold w'; simpl; by rewrite lookup_insert_eq).
      simpl. intros [= Heq]. rewrite <- Heq in Hq. by eapply fresh_ino_names.
    + intros i Hs Hreg.
      assert (Hne : link_path link_name source ≠ link_name) by congruence.
      assert (Hi : i ≠ fresh_ino w)
        by (intros ->; by eapply fresh_ino_names).
      unfold is_hardlink, os_stat. run.
      rewrite (resolve_here w (link_path link_name source) i) by done.
      replace (resolve w' link_name) with (inr (B := nat) (A := errno_code) i).
      * simpl. f_equal.
        by rewrite (linked_more_than_once_insert w w' link_name i (fresh_ino w)).
      * symmetry. unfold resolve, MAXSYMLINKS.
        change (walk 40 w' link_name)
          with (match names w' !! link_name with
                | None => inr (link_name, None)
                | Some k =>
                    match i_node (inode_at w' k) with
                    | Regular _ => inr (link_name, Some k)
                    | Symlink t => walk 39 w' (link_path link_name t)
                    end
                end).
        replace (names w' !! link_name) with (Some (fresh_ino w))
          by (unfold w'; simpl; by rewrite lookup_insert_eq).
        rewrite Hnew. simpl i_node. cbv iota.
        rewrite (walk_here _ _ _ i); [done| |].
        -- by rewrite Hnames.
        -- by rewrite (Hold _ i Hs).
  - intros ->. reflexivity.
  - intros Hsrc [j Hj]. unfold symlink, os_symlink.
    apply String.eqb_neq in Hsrc. by rewrite Hsrc, Hj.
Qed.

Lemma symlink_creates_link_witness :
  is_symlink "sub/link" (fst (symlink "data.csv" "sub/link" w_dirs))
  = (fst (symlink "data.csv" "sub/link" w_dirs), inr true)
  ∧ snd (is_hardlink "link" (fst (symlink "data.csv" "link" w_dirs)))
    = inr false
  ∧ symlink "" "link" w_dirs = (w_dirs, inl (os_error ENOENT))
  ∧ symlink "data.csv" "latest" w_dirs = (w_dirs, inl (os_error EEXIST)).
Proof.
  split_and!.
  - destruct (symlink_creates_link "data.csv" "sub/link" w_dirs) as [H _].
    destruct (H (fst (symlink "data.csv" "sub/link" w_dirs)))
      as (_ & _ & _ & H1 & _).
    { vm_compute. reflexivity. }
    exact H1.
  - destruct (symlink_creates_link "data.csv" "link" w_dirs) as [H _].
    destruct (H (fst (symlink "data.csv" "link" w_dirs)))
      as (_ & _ & _ & _ & _ & _ & H3).
    { vm_compute. reflexivity. }
    refine (eq_trans (H3 1%nat _ _) _); vm_compute; reflexivity.
  - by apply (symlink_creates_link "" "link" w_dirs).
  - apply (symlink_creates_link "data.csv" "latest" w_dirs); [done|].
    by eexists.
Defined.

Lemma linux_body_fds (src dst : path) (w : world) :
  fds (fst (_reflink_linux_body src dst w)) = fds w.
Proof.
  pose proof (SystemSpec.linux_body_cases src dst w) as H.
  destruct (open_ src mode_rb w) as [w1 [e|s]] eqn:Hs.
  { rewrite H. apply open_failure in Hs as ->. done. }
  apply open_rb_success in Hs as (i & dev & _ & -> & ->).
  assert (Hback : delete (new_fd w)
                    (<[new_fd w := mkOpenFile i dev true false]> (fds w)) = fds w)
    by apply delete_insert_id, new_fd_free.
  destruct (open_ dst mode_wb_plus _) as [w2 [e|d]] eqn:Hd.
  { rewrite H. apply open_failure in Hd as ->. exact Hback. }
  apply open_wb_plus_success in Hd as (j & devj & _ & -> & Hfds & _ & _).
  assert (Hfds3 : ∀ w3 r, ioctl (new_fd (set_fds <[new_fd w:=mkOpenFile i dev true false]> w))
                            FICLONE (new_fd w) w2 = (w3, r) → fds w3 = fds w2).
  { intros w3 [e|[]] Hi.
    - by apply ioctl_failure in Hi as ->.
    - by apply ioctl_ficlone_success in Hi as (?&?&_&_&_&_&_&_&->). }
  destruct (ioctl _ FICLONE _ w2) as [w3 r] eqn:Hi. rewrite H. simpl.
  rewrite (Hfds3 _ _ eq_refl), Hfds.
  rewrite delete_insert_id by apply new_fd_free. exact Hback.
Qed.

Lemma clonefile_fds (s d : bytes) (f : Z) (w : world) :
  fds (fst (clonefile s d f w)) = fds w
  ∧ (snd (clonefile s d f w) ≠ 0 →
     names (fst (clonefile s d f w)) = names w
     ∧ inodes (fst (clonefile s d f w)) = inodes w).
Proof.
  unfold clonefile.
  destruct (clone_source w (fsdecode s) f) as [e|[q i]]; [done|].
  destruct (negb (may_read w i)); [done|].
  destruct (names w !! fsdecode d); [done|].
  destruct (create_error w (fsdecode d)); [done|].
  destruct (negb _); [done|].
  by destruct (cow w).
Qed.

Lemma reflink_darwin_frame (src dst : path) (w : world) :
  fds (fst (_reflink_darwin src dst w)) = fds w
  ∧ (∀ e, snd (_reflink_darwin src dst w) = inl e →
          names (fst (_reflink_darwin src dst w)) = names w
          ∧ inodes (fst (_reflink_darwin src dst w)) = inodes w).
Proof.
  assert (Hcall : ∀ lib,
    let r := ((if negb (hasattr lib "clonefile")
               then raise (mkOSError (Some ENOTSUP)
                      "'clonefile' not supported by the standard library")
               else ret tt) ;;;
              r <- call_clonefile (fsencode src) (fsencode dst) 0 ;;
              if negb (Z.eqb r 0) then
                err <- gets c_errno ;;
                raise (mkOSError (Some err) (strerror err))
              else ret tt)%monad w in
    fds (fst r) = fds w
    ∧ (∀ e, snd r = inl e → names (fst r) = names w ∧ inodes (fst r) = inodes w)).
  { intros lib. unfold call_clonefile. run.
    destruct (negb (hasattr lib "clonefile")); [done|].
    pose proof (clonefile_fds (fsencode src) (fsencode dst) 0 w) as [Hf Hn].
    destruct (clonefile _ _ 0 w) as [w' r]. simpl in *.
    destruct (Z.eqb r 0) eqn:Hr; simpl; split; try done.
    intros _ _. apply Hn. by apply Z.eqb_neq. }
  unfold _reflink_darwin at 1 2 3 4. unfold _cdll. run.
  destruct (dlopen w LIBC) as [exc|lib]; [|apply Hcall].
  case_bool_decide; [done|].
  destruct (dlopen w LIBC_FALLBACK) as [exc'|lib]; [done|apply Hcall].
Qed.

Lemma chmod_fds (p : path) (m : Z) (w : world) :
  fds (fst (os_chmod p m w)) = fds w.
Proof.
  unfold os_chmod. destruct (resolve w p) as [|i]; [done|].
  by destruct (decide (i ∈ foreign w)).
Qed.

(** X3.  [reflink] leaves the descriptor table of the process as it found
    it, whatever the platform and however it ends: the two files the Linux
    branch opens are closed on every path. *)
Theorem reflink_closes_descriptors (source link_name : path) (w : world) :
  fds (fst (reflink source link_name w)) = fds w.
Proof.
  unfold reflink, dvc_utils_fs_umask. run.
  assert (Hbranch : ∀ m : OS unit, fds (fst (m w)) = fds w →
    fds (fst (let (s', s) := m w in
              match s with
              | inl e => (s', inl e)
              | inr _ => os_chmod link_name (Z.land 0x1b6 (Z.lnot (umask w))) s'
              end)) = fds w).
  { intros m Hm. destruct (m w) as [w1 [e|[]]]; [done|].
    simpl in *. by rewrite chmod_fds. }
  destruct (String.eqb (platform_system w) "Darwin").
  { apply Hbranch, reflink_darwin_frame. }
  destruct (String.eqb (platform_system w) "Linux"); [|done].
  apply Hbranch. unfold _reflink_linux. run.
  pose proof (linux_body_fds source link_name w) as Hb.
  destruct (_reflink_linux_body source link_name w) as [w1 [e|[]]]; [|done].
  simpl in *. rewrite <- Hb. unfold os_unlink.
  destruct (names w1 !! link_name); [|done]. by destruct (decide _).
Qed.

(** X4.  On Linux, when the source has no entry, [reflink] raises the
    [ENOENT] of the failed [open] and, because the [except] clause covers
    the opening of the source too, deletes whatever was at the target
    before, although the call never wrote to it (the directory permitting).
    Nothing else changes. *)
Theorem reflink_missing_source_removes_target
    (source link_name : path) (w : world) :
  platform_system w = "Linux" →
  names w !! source = None →
  link_name ∉ sealed w →
  reflink source link_name w
  = (match names w !! link_name with
     | Some _ => set_names (delete link_name) w
     | None => w
     end, inl (os_error ENOENT)).
Proof.
  intros Hsys Hs Hseal.
  unfold reflink, dvc_utils_fs_umask. run. rewrite Hsys. simpl.
  unfold _reflink_linux, _reflink_linux_body. run.
  unfold open_ at 1. rewrite (walk_absent _ _ _ Hs). simpl.
  unfold os_unlink. destruct (names w !! link_name); [|done].
  by destruct (decide _).
Qed.

Lemma reflink_missing_source_removes_target_witness :
  reflink "absent.csv" "latest" w_linux
  = (set_names (delete "latest") w_linux, inl (os_error ENOENT)).
Proof.
  apply (reflink_missing_source_removes_target "absent.csv" "latest" w_linux).
  - reflexivity.
  - reflexivity.
  - change (sealed w_linux) with (∅ : gset path). apply not_elem_of_empty.
Defined.

Lemma clone_added_chmod (w w1 : world) (i : nat) (dst : path) (m0 : Z) :
  link_target (inode_at w i) = None →
  names w1 = <[dst := fresh_ino w]> (names w) →
  inodes w1 = <[fresh_ino w := mkInode (i_node (inode_at w i)) m0]> (inodes w) →
  fds w1 = fds w →
  foreign w1 = foreign w →
  ∃ w', os_chmod dst (Z.land 0x1b6 (Z.lnot (umask w))) w1 = (w', inr tt)
        ∧ clone_added w w' i dst (fresh_ino w).
Proof.
  intros Hreg Hn Hi Hf Hfor.
  assert (Hat : inode_at w1 (fresh_ino w) = mkInode (i_node (inode_at w i)) m0).
  { unfold inode_at. by rewrite Hi, lookup_insert_eq. }
  assert (Hres : resolve w1 dst = inr (fresh_ino w)).
  { apply resolve_here; [by rewrite Hn, lookup_insert_eq|].
    rewrite Hat. exact Hreg. }
  unfold os_chmod. rewrite Hres, Hat.
  destruct (decide (fresh_ino w ∈ foreign w1)) as [Hin|_].
  { rewrite Hfor in Hin. by apply fresh_ino_own in Hin. }
  eexists. split; [reflexivity|].
  split_and!; simpl.
  - apply fresh_ino_inodes.
  - intros q. apply fresh_ino_names.
  - exact Hn.
  - unfold inode_at. simpl. by rewrite lookup_insert_eq.
  - intros k Hk. unfold inode_at. simpl.
    by rewrite lookup_insert_ne, Hi, lookup_insert_ne.
  - exact Hf.
Qed.

(** Opening a path without an entry for writing creates the file there. *)
Lemma open_wb_plus_absent (p : path) (w w2 : world) (d : nat) :
  names w !! p = None →
  open_ p mode_wb_plus w = (w2, inr d) →
  d = new_fd w
  ∧ w2 = set_fds
           (insert d (mkOpenFile (fresh_ino w) (device w p) true true))
           (set_names (insert p (fresh_ino w))
              (set_inodes
                 (insert (fresh_ino w)
                    (mkInode (Regular []) (Z.land 0x1b6 (Z.lnot (umask w)))))
                 w)).
Proof.
  intros Hp. unfold open_. rewrite (walk_absent _ _ _ Hp). simpl.
  destruct (if decide _ then _ else _); [done|]. by intros [= <- <-].
Qed.

(** X5.  On Linux, when [reflink] to a target without an entry succeeds,
    the source resolves to a file and the target names a new inode that
    has the content of that file and the mode [0o666 & ~umask]; the source
    and every other file are as they were, and no descriptor stays
    open. *)
Theorem reflink_linux_clones (source link_name : path) (w w' : world) :
  platform_system w = "Linux" →
  names w !! link_name = None →
  reflink source link_name w = (w', inr tt) →
  ∃ i j, resolve w source = inr i ∧ clone_added w w' i link_name j.
Proof.
  intros Hsys Hdst. unfold reflink, dvc_utils_fs_umask. run.
  rewrite Hsys. simpl.
  unfold _reflink_linux. run.
  pose proof (SystemSpec.linux_body_cases source link_name w) as Hc.
  destruct (_reflink_linux_body source link_name w) as [wb [e|[]]] eqn:Hbody.
  { by destruct (os_unlink link_name wb) as [? [?|?]]. }
  destruct (open_ source mode_rb w) as [w1 [e|s]] eqn:H1; [done|].
  apply open_rb_success in H1 as (i & dev & Hsrc & -> & ->).
  pose proof (resolve_found _ _ _ Hsrc) as [Hreg _].
  set (s := new_fd w) in *.
  set (w1 := set_fds (insert s (mkOpenFile i dev true false)) w) in *.
  destruct (open_ link_name mode_wb_plus w1) as [w2 [e|d]] eqn:H2; [done|].
  apply open_wb_plus_absent in H2 as [-> ->]; [|done].
  set (j := fresh_ino w) in *.
  set (d := new_fd w1) in *.
  set (nd := mkInode (Regular []) (Z.land 0x1b6 (Z.lnot (umask w)))) in *.
  change (fresh_ino w1) with j in *.
  change (umask w1) with (umask w) in *. fold nd in Hc.
  set (w2 := set_fds (insert d _) (set_names _ _)) in *.
  assert (Hij : i ≠ j).
  { intros ->. destruct (resolve_found _ _ _ Hsrc) as [_ [q Hq]].
    by eapply fresh_ino_names. }
  assert (Hds : d ≠ s).
  { unfold d. intros Heq. pose proof (new_fd_free w1) as Hf.
    rewrite Heq in Hf. unfold w1 in Hf. simpl in Hf.
    by rewrite lookup_insert_eq in Hf. }
  destruct (ioctl d FICLONE s w2) as [w3 [e|[]]] eqn:H3; [done|].
  apply ioctl_ficlone_success
    in H3 as (od & os & Hod & Hos & _ & _ & _ & _ & ->).
  assert (od = mkOpenFile j (device w1 link_name) true true) as ->.
  { unfold w2 in Hod. simpl in Hod. rewrite lookup_insert_eq in Hod.
    by injection Hod. }
  assert (os = mkOpenFile i dev true false) as ->.
  { unfold w2, w1 in Hos. simpl in Hos.
    rewrite lookup_insert_ne, lookup_insert_eq in Hos by done.
    by injection Hos. }
  cbn [of_ino] in Hc. injection Hc as Hwb. subst wb.
  intros Hch.
  assert (H2i : inode_at w2 i = inode_at w i).
  { unfold inode_at, w2, w1. simpl. by rewrite lookup_insert_ne. }
  assert (H2j : inode_at w2 j = nd).
  { unfold inode_at, w2, w1. simpl. by rewrite lookup_insert_eq. }
  rewrite H2i, H2j in Hch.
  match type of Hch with
  | os_chmod _ _ ?w4 = _ =>
      destruct (clone_added_chmod w w4 i link_name (i_mode nd))
        as (w'' & Hch' & Hclone)
  end; try done.
  - simpl. apply map_eq. intros k. unfold w2, w1. simpl.
    destruct (decide (k = j)) as [->|Hk].
    + by rewrite !lookup_insert_eq.
    + by rewrite !lookup_insert_ne.
  - unfold w2, w1. simpl.
    rewrite delete_insert_id.
    + apply delete_insert_id, new_fd_free.
    + apply (new_fd_free w1).
  - rewrite Hch' in Hch. injection Hch as <-. by exists i, j.
Qed.

Lemma reflink_linux_clones_witness :
  ∃ i j, resolve (with_cow None w_linux) "latest" = inr i
         ∧ clone_added (with_cow None w_linux)
             (fst (reflink "latest" "copy.csv" (with_cow None w_linux)))
             i "copy.csv" j.
Proof.
  apply (reflink_linux_clones "latest" "copy.csv" (with_cow None w_linux)).
  - reflexivity.
  - reflexivity.
  - vm_compute. reflexivity.
Defined.

(** What a call of [clonefile] that returns 0 has done. *)
Lemma clonefile_success (src dst : path) (w w1 : world) :
  clonefile (fsencode src) (fsencode dst) 0 w = (w1, 0) →
  ∃ i, resolve w src = inr i
       ∧ names w !! dst = None
       ∧ w1 = set_names (insert dst (fresh_ino w))
                (set_inodes
                   (insert (fresh_ino w)
                      (mkInode (i_node (inode_at w i))
                               (Z.ldiff (i_mode (inode_at w i)) 0xc00)))
                   w).
Proof.
  unfold clonefile, clone_source, resolve. rewrite !fsdecode_fsencode.
  change (negb (Z.eqb (Z.land 0 CLONE_NOFOLLOW) 0)) with false. cbv iota.
  destruct (walk MAXSYMLINKS w src) as [e|[q [i|]]]; [done| |done].
  destruct (negb (may_read w i)); [done|].
  destruct (names w !! dst) eqn:Hd; [done|].
  destruct (create_error w dst); [done|].
  destruct (negb _); [done|].
  destruct (cow w); [done|]. intros [= <-]. by exists i.
Qed.

(** X6.  On Darwin, when [reflink] succeeds, the source resolves to a file
    and the target, which had no entry, names a new inode with the content
    of that file and the mode [0o666 & ~umask], not the mode of the source
    that [clonefile] gave it; every other file is as it was. *)
Theorem reflink_darwin_clones (source link_name : path) (w w' : world) :
  platform_system w = "Darwin" →
  reflink source link_name w = (w', inr tt) →
  ∃ i j, resolve w source = inr i
         ∧ names w !! link_name = None
         ∧ clone_added w w' i link_name j.
Proof.
  intros Hsys. unfold reflink, dvc_utils_fs_umask. run. rewrite Hsys. simpl.
  destruct (_reflink_darwin source link_name w) as [w1 [e|[]]] eqn:Hrun;
    [done|].
  apply SystemSpec.darwin_success_clonefile, clonefile_success
    in Hrun as (i & Hsrc & Hdst & ->).
  pose proof (resolve_found _ _ _ Hsrc) as [Hreg _].
  intros Hch.
  match type of Hch with
  | os_chmod _ _ ?w4 = _ =>
      destruct (clone_added_chmod w w4 i link_name
                  (Z.ldiff (i_mode (inode_at w i)) 0xc00))
        as (w'' & Hch' & Hclone)
  end; try done.
  rewrite Hch' in Hch. injection Hch as <-. by exists i, (fresh_ino w).
Qed.

Lemma reflink_darwin_clones_witness :
  ∃ i j, resolve w_darwin "data.csv" = inr i
         ∧ names w_darwin !! "copy.csv" = None
         ∧ clone_added w_darwin
             (fst (reflink "data.csv" "copy.csv" w_darwin)) i "copy.csv" j.
Proof.
  apply (reflink_darwin_clones "data.csv" "copy.csv" w_darwin).
  - reflexivity.
  - vm_compute. reflexivity.
Defined.

(** X7.  On Darwin a failed [reflink] leaves every file as it was: whether
    the library cannot be loaded, lacks [clonefile], or [clonefile] returns
    an error, no entry and no inode is added, removed or changed, and the
    mode of the target is not touched. *)
Theorem reflink_darwin_failure_keeps_files (source link_name : path)
    (w w' : world) (e : OSError) :
  platform_system w = "Darwin" →
  reflink source link_name w = (w', inl e) →
  names w' = names w ∧ inodes w' = inodes w.
Proof.
  intros Hsys. unfold reflink, dvc_utils_fs_umask. run. rewrite Hsys. simpl.
  pose proof (reflink_darwin_frame source link_name w) as [_ Hfail].
  destruct (_reflink_darwin source link_name w) as [w1 [e1|[]]] eqn:Hrun.
  - intros [= <- _]. by apply (Hfail e1).
  - intros Hch. exfalso.
    destruct (SystemSpec.darwin_success _ _ _ _ Hrun) as (_ & k & Hk & Hown).
    unfold os_chmod in Hch. rewrite Hk in Hch.
    by destruct (decide (k ∈ foreign w1)).
Qed.

Lemma reflink_darwin_failure_keeps_files_witness :
  names (fst (reflink "data.csv" "latest" w_darwin)) = names w_darwin
  ∧ inodes (fst (reflink "data.csv" "latest" w_darwin)) = inodes w_darwin.
Proof.
  apply (reflink_darwin_failure_keeps_files "data.csv" "latest" w_darwin
           (fst (reflink "data.csv" "latest" w_darwin)) (os_error EEXIST)).
  - reflexivity.
  - by vm_compute.
Defined.

End SystemExtra.

(** ** Further properties of [dvc/repo/experiments/init.py] *)

Module ExpInitExtra.

Import ExpInit.
Import ExpInitCases.
Import ExpInitExtraNotions.

(** A step that leaves the whole state: it ends the run with its
    exception, or hands its result to the rest. *)
Lemma pure_step {S E A B} (m : M S E A) (k : A → M S E B) (s s' : S)
    (r : E + B) :
  (∀ s1 r1, m s = (s1, r1) → s1 = s) →
  bind m k s = (s', r) →
  (∃ e, r = inl e ∧ s' = s) ∨ (∃ a, m s = (s, inr a) ∧ k a s = (s', r)).
Proof.
  intros Hpure H.
  apply ExpInitSpec.bind_inv in H as [(e & H & ->)|(a & s1 & H1 & H2)].
  - left. exists e. split; [done|]. by eapply Hpure.
  - right. exists a. pose proof (Hpure _ _ H1) as ->. done.
Qed.

Lemma kept_defaults_pop (R : Type) (type : string) (D : dict)
    (w w1 : world R) (r : exn + dict) :
  (if String.eqb type "live"
   then (d <- dict_pop "metrics" D ;; dict_pop "params" d)%monad
   else dict_pop "live" D) w = (w1, r) →
  w1 = w ∧ ∀ d, r = inr d → d = kept_defaults type D.
Proof.
  unfold kept_defaults, dict_pop. destruct (String.eqb type "live"); run.
  - destruct (D !! "metrics"); [|by intros [= <- <-]].
    destruct (delete "metrics" D !! "params"); intros [= <- <-];
      (split; [done|]); by intros d [= <-].
  - destruct (D !! "live"); intros [= <- <-]; (split; [done|]);
      by intros d [= <-].
Qed.

(** A non-interactive run of [init], step by step: it either raises before
    anything is written, the state being the one it started in, or creates
    the stage from the overrides laid over the kept defaults and goes on
    to [dump] and [ignore_outs]. *)
Lemma init_noninteractive_run (C : Collaborators) (name : option string)
    (type : string) (defaults overrides : option dict) (force : bool)
    (w w' : world (Repo C)) (r : exn + Stage C) :
  init C name type defaults overrides false force w = (w', r) →
  (∃ e, r = inl e ∧ w' = w)
  ∨ ∃ params_kv stage,
      let context := default ∅ overrides ∪ kept_defaults type (default ∅ defaults) in
      (if opt_truthy (context !! "params")
       then ∃ path loader keys,
              context !! "params" = Some path
              ∧ LOADERS C (snd (splitext path)) = Some loader
              ∧ loader path (repo w) = inr keys
              ∧ params_kv = [(path, keys)]
       else params_kv = [])
      ∧ is_Some (context !! "cmd")
      ∧ stage_create C (init_kwargs (name_or name type) context params_kv force)
          (repo w) = inr stage
      ∧ dumped C stage (repo w) (repo w') r
      ∧ term w' = term w
      ∧ logging_disable w' = logging_disable w.
Proof.
  unfold init. cbv zeta. intros H.
  apply pure_step in H as [H|([] & _ & H)]; [by left| |].
  2:{ intros w1 r1. unfold _check_stage_exists. run.
      destruct (_ && _); by intros [= <- _]. }
  apply pure_step in H as [H|(dflts & Hd & H)]; [by left| |].
  2:{ intros w1 r1 Hp. by apply kept_defaults_pop in Hp as [-> _]. }
  apply kept_defaults_pop in Hd as [_ Hd]. rewrite (Hd _ eq_refl) in H.
  clear Hd dflts.
  set (ctx := default ∅ overrides ∪ kept_defaults type (default ∅ defaults)) in *.
  apply pure_step in H as [H|([] & Hcmd & H)]; [by left| |].
  2:{ intros w1 r1. case_bool_decide; by intros [= <- _]. }
  assert (Hcmd' : is_Some (ctx !! "cmd")).
  { revert Hcmd. case_bool_decide; [done|by intros [= _]]. }
  clear Hcmd.
  apply pure_step in H as [H|(params_kv & Hkv & H)]; [by left| |].
  2:{ intros w1 r1. destruct (opt_truthy _); [|by intros [= <- _]].
      destruct (splitext _) as [? ext].
      destruct (LOADERS C ext) as [loader|]; [|by intros [= <- _]].
      run. destruct (loader _ _); by intros [= <- _]. }
  assert (Hkv' : if opt_truthy (ctx !! "params")
                 then ∃ path loader keys,
                        ctx !! "params" = Some path
                        ∧ LOADERS C (snd (splitext path)) = Some loader
                        ∧ loader path (repo w) = inr keys
                        ∧ params_kv = [(path, keys)]
                 else params_kv = []).
  { revert Hkv. destruct (ctx !! "params") as [path|]; simpl;
      [|by intros [= <-]].
    destruct (truthy path); [|by intros [= <-]].
    destruct (splitext path) as [? ext] eqn:Hext. simpl.
    destruct (LOADERS C ext) as [loader|] eqn:Hl; [|done]. run.
    destruct (loader path (repo w)) as [|keys] eqn:Hk; [done|].
    intros [= <-]. exists path, loader, keys. rewrite Hext. by split_and!. }
  clear Hkv.
  apply pure_step in H as [H|(rp & Hrp & H)]; [by left| |].
  2:{ by intros w1 r1 [= <- _]. }
  injection Hrp as <-.
  apply pure_step in H as [H|(stage & Hmk & H)]; [by left| |].
  2:{ intros w1 r1. destruct (stage_create C _ _); by intros [= <- _]. }
  assert (Hmk' : stage_create C
                   (init_kwargs (name_or name type) ctx params_kv force)
                   (repo w) = inr stage).
  { revert Hmk. unfold init_kwargs.
    destruct (stage_create C _ _); [done|]. by intros [= ->]. }
  clear Hmk.
  right. exists params_kv, stage. cbv zeta. fold ctx.
  split_and!; try done; revert H;
    unfold _disable_logging, logging_disable_set, on_repo, dumped; run; simpl;
    destruct (stage_dump C stage false (repo w)) as [rp1 [e|[]]]; simpl;
    try (by intros [= <- <-]);
    destruct (stage_ignore_outs C stage rp1) as [rp2 [e|[]]]; simpl;
    by intros [= <- <-].
Qed.

(** X8.  A non-interactive [init] never uses the terminal, so it asks for
    no confirmation, and it leaves the logging level as it found it.  It
    either raises with the repository untouched, or creates the stage,
    under the name [name or type] and with the [force] it was given, and
    goes on to [dump] it and, if that succeeds, to ignore its outputs. *)
Theorem init_noninteractive_writes_unasked (C : Collaborators)
    (name : option string) (type : string) (defaults overrides : option dict)
    (force : bool) (w w' : world (Repo C)) (r : exn + Stage C) :
  init C name type defaults overrides false force w = (w', r) →
  term w' = term w
  ∧ logging_disable w' = logging_disable w
  ∧ ((∃ e, r = inl e ∧ repo w' = repo w)
     ∨ ∃ kwargs stage,
         stage_create C kwargs (repo w) = inr stage
         ∧ kw_name kwargs = name_or name type
         ∧ kw_force kwargs = force
         ∧ dumped C stage (repo w) (repo w') r).
Proof.
  intros H. apply init_noninteractive_run in H
    as [(e & -> & ->)|(kv & stage & _ & _ & Hmk & Hd & Ht & Hl)].
  - split_and!; [done..|]. left. eauto.
  - split_and!; [done..|]. right. eexists _, stage. by split_and!.
Qed.

Lemma init_noninteractive_writes_unasked_witness :
  term (fst (init demo None "default" (Some demo_defaults) None false false
               (demo_world false)))
  = term (demo_world false)
  ∧ repo (fst (init demo None "default" (Some demo_defaults) None false false
                 (demo_world false)))
    = mkDemo (Some ["train"; "default"]) ["models"].
Proof.
  destruct (init_noninteractive_writes_unasked demo None "default"
              (Some demo_defaults) None false (demo_world false) _ _ eq_refl)
    as (Ht & _ & _).
  split; [exact Ht|by vm_compute].
Defined.

(** X9.  A non-interactive [init] removes keys from the defaults with
    [pop], which raises for a missing key.  Past the check for an existing
    stage, it raises [KeyError] with the state untouched when the defaults
    lack ["live"] (for a type other than ["live"]), or lack ["metrics"] or
    ["params"] (for the type ["live"]); in particular whenever no defaults
    are passed. *)
Theorem init_missing_default_key (C : Collaborators) (name : option string)
    (type : string) (defaults overrides : option dict) (force : bool)
    (w : world (Repo C)) :
  negb force && dvcfile_exists C "dvc.yaml" (repo w)
    && dvcfile_has_stage C "dvc.yaml" (repo w) (name_or name type) = false →
  (type ≠ "live" → default ∅ defaults !! "live" = None →
   init C name type defaults overrides false force w = (w, inl (KeyError "live")))
  ∧ (type = "live" → default ∅ defaults !! "metrics" = None →
     init C name type defaults overrides false force w
     = (w, inl (KeyError "metrics")))
  ∧ (type = "live" → is_Some (default ∅ defaults !! "metrics") →
     default ∅ defaults !! "params" = None →
     init C name type defaults overrides false force w
     = (w, inl (KeyError "params")))
  ∧ (defaults = None →
     ∃ key, init C name type defaults overrides false force w
            = (w, inl (KeyError key))).
Proof.
  intros Hcheck.
  assert (Hlive : type ≠ "live" → default ∅ defaults !! "live" = None →
    init C name type defaults overrides false force w = (w, inl (KeyError "live"))).
  { intros Ht Hk. apply String.eqb_neq in Ht.
    unfold init, _check_stage_exists, dict_pop. run. cbn [gets].
    rewrite Hcheck, Ht. simpl. by rewrite Hk. }
  assert (Hmetrics : type = "live" → default ∅ defaults !! "metrics" = None →
    init C name type defaults overrides false force w
    = (w, inl (KeyError "metrics"))).
  { intros -> Hk.
    unfold init, _check_stage_exists, dict_pop. run. cbn [gets].
    rewrite Hcheck. simpl. by rewrite Hk. }
  split_and!; [exact Hlive|exact Hmetrics| |].
  - intros -> [m Hm] Hk.
    unfold init, _check_stage_exists, dict_pop. run. cbn [gets].
    rewrite Hcheck. simpl. rewrite Hm.
    rewrite lookup_delete_ne by done. by rewrite Hk.
  - intros ->. destruct (decide (type = "live")) as [Ht|Ht].
    + exists "metrics". by apply Hmetrics.
    + exists "live". by apply Hlive.
Qed.

Lemma init_missing_default_key_witness :
  init demo (Some "prepare") "default" None None false false (demo_world true)
  = (demo_world true, inl (KeyError "live"))
  ∧ init demo (Some "prepare") "live" (Some {["metrics" := "m.json"]}) None
      false true (demo_world true)
    = (demo_world true, inl (KeyError "params")).
Proof.
  split.
  - by apply (init_missing_default_key demo (Some "prepare") "default" None None
                false (demo_world true)).
  - destruct (init_missing_default_key demo (Some "prepare") "live"
                (Some {["metrics" := "m.json"]}) None true (demo_world true)
                eq_refl) as (_ & _ & Hparams & _).
    apply Hparams; [reflexivity|by eexists|reflexivity].
Defined.

Lemma lookup_over_deleted (O D : dict) (k : string) :
  (O ∪ delete k D) !! k = O !! k.
Proof. apply lookup_union_l, lookup_delete_eq. Qed.

Lemma lookup_beside_deleted (O D : dict) (k k' : string) :
  k ≠ k' → (O ∪ delete k' D) !! k = (O ∪ D) !! k.
Proof. intros Hne. by rewrite !lookup_union, lookup_delete_ne. Qed.

(** X10.  What a non-interactive [init] asks [repo.stage.create] for, when
    it returns a stage.  Every argument comes from the overrides laid over
    the defaults, except that for the type ["live"] the default metrics
    and parameters are suppressed (the stage gets those of the overrides
    only) and for any other type the default [live] is.  The command is
    the one found; code and data are the dependencies; the keys of the
    parameters file, when one is named, are read with the loader for its
    extension; and the models are passed as [checkpoints] when the stage
    has a [live] output, as [outs] otherwise, never as both. *)
Theorem init_suppresses_defaults (C : Collaborators) (name : option string)
    (type : string) (defaults overrides : option dict) (force : bool)
    (w w' : world (Repo C)) (stage : Stage C) :
  init C name type defaults overrides false force w = (w', inr stage) →
  let O := default ∅ overrides in
  let D := default ∅ defaults in
  let live := if String.eqb type "live" then (O ∪ D) !! "live"
              else O !! "live" in
  let metrics := if String.eqb type "live" then O !! "metrics"
                 else (O ∪ D) !! "metrics" in
  let params := if String.eqb type "live" then O !! "params"
                else (O ∪ D) !! "params" in
  let models := compact_list [(O ∪ D) !! "models"] in
  ∃ kwargs,
    stage_create C kwargs (repo w) = inr stage
    ∧ kw_name kwargs = name_or name type
    ∧ (O ∪ D) !! "cmd" = Some (kw_cmd kwargs)
    ∧ kw_deps kwargs = compact_list [(O ∪ D) !! "code"; (O ∪ D) !! "data"]
    ∧ kw_metrics_no_cache kwargs = compact_list [metrics]
    ∧ kw_plots_no_cache kwargs = compact_list [(O ∪ D) !! "plots"]
    ∧ kw_live kwargs = live
    ∧ kw_force kwargs = force
    ∧ (opt_truthy params = false → kw_params kwargs = [])
    ∧ (opt_truthy params = true →
       ∃ path loader keys,
         params = Some path
         ∧ LOADERS C (snd (splitext path)) = Some loader
         ∧ loader path (repo w) = inr keys
         ∧ kw_params kwargs = [(path, keys)])
    ∧ (opt_truthy live = true →
       kw_checkpoints kwargs = Some models ∧ kw_outs kwargs = None)
    ∧ (opt_truthy live = false →
       kw_outs kwargs = Some models ∧ kw_checkpoints kwargs = None).
Proof.
  intros H. apply init_noninteractive_run in H
    as [(e & He & _)|(kv & st & Hkv & [cmd Hcmd] & Hmk & Hd & _)]; [done|].
  assert (st = stage) as ->.
  { unfold dumped in Hd.
    destruct (stage_dump C st false (repo w)) as [rp1 [e|[]]];
      [by destruct Hd|].
    destruct (stage_ignore_outs C st rp1) as [rp2 [e|[]]];
      destruct Hd as [_ Hd]; congruence. }
  cbv zeta. eexists. split; [exact Hmk|].
  unfold init_kwargs, kept_defaults in *. simpl.
  assert (Hparams : ∀ p : option string,
    (if opt_truthy p
     then ∃ path loader keys,
            p = Some path
            ∧ LOADERS C (snd (splitext path)) = Some loader
            ∧ loader path (repo w) = inr keys
            ∧ kv = [(path, keys)]
     else kv = []) →
    (opt_truthy p = false → kv = [])
    ∧ (opt_truthy p = true →
       ∃ path loader keys,
         p = Some path
         ∧ LOADERS C (snd (splitext path)) = Some loader
         ∧ loader path (repo w) = inr keys
         ∧ kv = [(path, keys)])).
  { intros p Hp. destruct (opt_truthy p); split; done. }
  destruct (String.eqb type "live").
  - rewrite ?lookup_over_deleted in *.
    rewrite ?(lookup_beside_deleted _ _ _ "params") in * by done.
    rewrite ?lookup_over_deleted in *.
    rewrite ?(lookup_beside_deleted _ _ _ "metrics") in * by done.
    apply Hparams in Hkv as [Hkv1 Hkv2].
    rewrite Hcmd. simpl.
    split_and!; try done; intros ->; done.
  - rewrite ?lookup_over_deleted in *.
    rewrite ?(lookup_beside_deleted _ _ _ "live") in * by done.
    apply Hparams in Hkv as [Hkv1 Hkv2].
    rewrite Hcmd. simpl.
    split_and!; try done; intros ->; done.
Qed.

Lemma init_suppresses_defaults_witness :
  ∃ kwargs,
    stage_create demo kwargs (repo (demo_world true))
    = inr (mkCreate "live" "python train.py" [] [] [] [] None false None
             (Some ["models"]))
    ∧ kw_metrics_no_cache kwargs = []
    ∧ kw_params kwargs = []
    ∧ kw_outs kwargs = Some ["models"]
    ∧ kw_checkpoints kwargs = None.
Proof.
  destruct (init_suppresses_defaults demo None "live"
              (Some {["metrics" := "m.json"; "params" := "params.yaml";
                      "models" := "models"]})
              (Some {["cmd" := "python train.py"]}) false (demo_world true)
              (fst (init demo None "live"
                      (Some {["metrics" := "m.json"; "params" := "params.yaml";
                              "models" := "models"]})
                      (Some {["cmd" := "python train.py"]}) false false
                      (demo_world true)))
              (mkCreate "live" "python train.py" [] [] [] [] None false None
                 (Some ["models"])))
    as (kw & Hmk & _ & _ & _ & Hm & _ & _ & _ & Hp & _ & _ & Hout).
  - vm_compute. reflexivity.
  - exists kw. destruct (Hout eq_refl) as [Ho Hc].
    split_and!; [exact Hmk|exact Hm|by apply Hp|exact Ho|exact Hc].
Defined.

Lemma frame_ret {S E A X} (f : S → X) (a : A) : keeps f (ret (E := E) a).
Proof. by intros s s' r [= <- _]. Qed.

Lemma frame_raise {S E A X} (f : S → X) (e : E) : keeps f (raise (A := A) e).
Proof. by intros s s' r [= <- _]. Qed.

Lemma frame_gets {S E A X} (f : S → X) (g : S → A) : keeps f (gets (E := E) g).
Proof. by intros s s' r [= <- _]. Qed.

Lemma frame_bind {S E A B X} (f : S → X) (m : M S E A) (k : A → M S E B) :
  keeps f m → (∀ a, keeps f (k a)) → keeps f (bind m k).
Proof.
  intros Hm Hk s s' r H.
  apply ExpInitSpec.bind_inv in H as [(e & H & _)|(a & s1 & H1 & H2)].
  - by eapply Hm.
  - rewrite (Hk _ _ _ _ H2). by eapply Hm.
Qed.

Lemma frame_level_on_term (C : Collaborators) {A} (m : UI A) :
  keeps logging_disable (on_term C m).
Proof.
  intros w w' r. unfold on_term. destruct (m (term w)). by intros [= <- _].
Qed.

Lemma frame_level_on_repo (C : Collaborators) {A} (m : M (Repo C) exn A) :
  keeps logging_disable (on_repo C m).
Proof.
  intros w w' r. unfold on_repo. destruct (m (repo w)). by intros [= <- _].
Qed.

(** The context manager: the body runs at the level asked for, and the
    level found is put back however the body ends. *)
Lemma disable_logging_run (C : Collaborators) {A} (level : Z)
    (body : M (world (Repo C)) exn A) (w : world (Repo C)) :
  _disable_logging C level body w
  = (let '(w1, r) := body (mkWorld (repo w) (term w) level) in
     (mkWorld (repo w1) (term w1) (logging_disable w), r)).
Proof.
  unfold _disable_logging, logging_disable_set. run. simpl.
  by destruct (body _) as [w1 r].
Qed.

(** X11.  [_disable_logging] runs its body at the level asked for and puts
    the level it found back however the body ends, whatever the body did to
    the level; and every run of [init], interactive or not, successful or
    not, leaves the logging level as it found it. *)
Theorem init_restores_logging_level (C : Collaborators) :
  (∀ A level (body : M (world (Repo C)) exn A) w,
     logging_disable (fst (_disable_logging C level body w)) = logging_disable w
     ∧ snd (_disable_logging C level body w)
       = snd (body (mkWorld (repo w) (term w) level)))
  ∧ (∀ name type defaults overrides interactive force w,
       logging_disable
         (fst (init C name type defaults overrides interactive force w))
       = logging_disable w).
Proof.
  split.
  - intros A level body w. rewrite disable_logging_run.
    by destruct (body _) as [w1 r].
  - intros name type defaults overrides interactive force w.
    assert (H : keeps logging_disable
                  (init C name type defaults overrides interactive force)).
    { unfold init. cbv zeta.
      apply frame_bind.
      { unfold _check_stage_exists. apply frame_bind; [apply frame_gets|].
        intros rp. destruct (_ && _); [apply frame_raise|apply frame_ret]. }
      intros _. apply frame_bind.
      { destruct interactive; [apply frame_level_on_term|].
        unfold dict_pop. destruct (String.eqb type "live").
        - apply frame_bind.
          + destruct (_ !! "metrics"); [apply frame_ret|apply frame_raise].
          + intros d. destruct (d !! "params");
              [apply frame_ret|apply frame_raise].
        - destruct (_ !! "live"); [apply frame_ret|apply frame_raise]. }
      intros dflts. apply frame_bind.
      { case_bool_decide; [apply frame_ret|apply frame_raise]. }
      intros _. apply frame_bind.
      { destruct (opt_truthy _); [|apply frame_ret].
        destruct (splitext _) as [? ext].
        destruct (LOADERS C ext) as [loader|]; [|apply frame_raise].
        apply frame_bind; [apply frame_gets|]. intros rp.
        destruct (loader _ rp); [apply frame_raise|apply frame_ret]. }
      intros kv. apply frame_bind; [apply frame_gets|]. intros rp.
      apply frame_bind.
      { destruct (stage_create C _ rp); [apply frame_raise|apply frame_ret]. }
      intros stage. apply frame_bind.
      { destruct interactive; [|apply frame_ret].
        apply frame_bind; [apply frame_level_on_term|].
        intros _. apply frame_level_on_term. }
      intros _. apply frame_bind.
      { destruct (negb interactive);
          [apply frame_ret|apply frame_level_on_term]. }
      intros [|]; [|apply frame_raise].
      apply frame_bind.
      { intros w0 w1 r Hrun. rewrite disable_logging_run in Hrun.
        destruct (on_repo C _ _) as [w2 r2]. by injection Hrun as <- _. }
      intros _. apply frame_bind; [apply frame_level_on_repo|].
      intros _. apply frame_ret. }
    destruct (init C name type defaults overrides interactive force w)
      as [w' r] eqn:Hrun. by apply H in Hrun.
Qed.

(** [get_input] shows the prompt and takes the next thing the user does;
    when that is not a line, it writes an empty line before it raises. *)
Lemma get_input_run (text : string) (t : Terminal) :
  get_input text t
  = match stdin t with
    | [] =>
        (mkTerminal [] (confirms t)
           ((screen t ++ [(Stderr, [Text text])]) ++ [(Stderr, [])]),
         inl EOFError)
    | Line l :: rest =>
        (mkTerminal rest (confirms t) (screen t ++ [(Stderr, [Text text])]),
         inr l)
    | Interrupt :: rest =>
        (mkTerminal rest (confirms t)
           ((screen t ++ [(Stderr, [Text text])]) ++ [(Stderr, [])]),
         inl KeyboardInterrupt)
    end.
Proof.
  unfold get_input, base_get_input, term_write, term_input. run. simpl.
  by destruct (stdin t) as [|[l|] rest].
Qed.

Lemma process_response_rejected cls value err :
  process_response cls value = inl err → strip value = "".
Proof.
  unfold process_response, required_process_response, base_process_response,
    truthy.
  destruct (String.eqb (strip value) "") eqn:Hs; simpl.
  - intros _. by apply String.eqb_eq.
  - by destruct cls.
Qed.

Lemma process_response_answered cls dflt value r :
  process_response cls value = inr r → answered cls dflt value r.
Proof.
  unfold process_response, required_process_response, base_process_response,
    skip_value.
  destruct (truthy (strip value)) eqn:Ht; simpl.
  2:{ by destruct cls. }
  assert (Hne : strip value ≠ "").
  { intros Heq. rewrite Heq in Ht. done. }
  destruct cls.
  - intros [= <-]. right. by split_and!.
  - destruct (String.eqb (strip value) "n") eqn:Hn; intros [= <-].
    + apply String.eqb_eq in Hn. by split.
    + apply String.eqb_neq in Hn. right. by split_and!.
Qed.

(** X12.  The prompts.  [ask] goes through the input: lines that are blank
    once stripped of white space, Unicode white space included, are
    answered with an error and asked again.  It returns at the first other
    line: the default for an empty line when there is one, [None] from a
    skippable prompt for a line that is ["n"] once stripped, otherwise the
    stripped line; a required prompt never returns [None].  It raises only
    when the input ends ([EOFError]) or the user interrupts
    ([KeyboardInterrupt]) before such a line, and has then written an
    empty line last. *)
Theorem ask_returns (cls : prompt_cls) (prompt : string)
    (dflt : option string) (t t' : Terminal) (r : exn + option string) :
  ask cls prompt dflt t = (t', r) →
  ∃ used,
    rejected used
    ∧ match r with
      | inl e =>
          last (screen t') = Some (Stderr, [])
          ∧ (e = EOFError ∧ stdin t = used ∧ stdin t' = []
             ∨ e = KeyboardInterrupt
               ∧ stdin t = (used ++ Interrupt :: stdin t')%list)
      | inr answer =>
          (answer = None → cls = SkippablePrompt)
          ∧ ∃ line, stdin t = (used ++ Line line :: stdin t')%list
                    ∧ answered cls dflt line answer
      end.
Proof.
  assert (Hnil : rejected []).
  { intros k Hk. by apply elem_of_nil in Hk. }
  unfold ask. remember (stdin t) as lines eqn:Hlines.
  revert t Hlines. induction lines as [|k lines IH]; intros t Hlines; simpl;
    rewrite get_input_run, <- Hlines.
  - intros [= <- <-]. exists []. split; [done|]. simpl.
    split; [apply last_snoc|]. by left.
  - destruct k as [l|].
    2:{ intros [= <- <-]. exists []. split; [done|]. simpl.
        split; [apply last_snoc|]. by right. }
    set (t1 := mkTerminal lines _ _).
    assert (Hrest :
      match process_response cls l with
      | inl err =>
          ask_lines cls prompt dflt lines (fst (term_write Stderr [Text err] t1))
      | inr r0 => (t1, inr r0)
      end = (t', r) →
      ∃ used,
        rejected used
        ∧ match r with
          | inl e =>
              last (screen t') = Some (Stderr, [])
              ∧ (e = EOFError ∧ Line l :: lines = used ∧ stdin t' = []
                 ∨ e = KeyboardInterrupt
                   ∧ Line l :: lines = (used ++ Interrupt :: stdin t')%list)
          | inr answer =>
              (answer = None → cls = SkippablePrompt)
              ∧ ∃ line, Line l :: lines = (used ++ Line line :: stdin t')%list
                        ∧ answered cls dflt line answer
          end).
    { destruct (process_response cls l) as [err|r0] eqn:Hp.
      - intros Hrun. apply IH in Hrun; [|done].
        destruct Hrun as (used & Hrej & Hr).
        exists (Line l :: used). split.
        { intros k Hk. apply elem_of_cons in Hk as [->|Hk]; [|by apply Hrej].
          exists l. split; [done|]. by eapply process_response_rejected. }
        destruct r as [e|answer].
        + destruct Hr as [Hlast [(-> & Hu & Ht')|(-> & Hu)]];
            (split; [done|]); [left|right]; simpl; by rewrite <- Hu.
        + destruct Hr as (Hn & line & Hu & Ha). split; [done|].
          exists line. split; [|done]. simpl. by rewrite <- Hu.
      - intros [= <- <-]. exists []. split; [done|].
        pose proof (process_response_answered cls dflt l r0 Hp) as Ha.
        split.
        + intros ->. by destruct Ha.
        + by exists l. }
    destruct dflt as [d|]; [|exact Hrest].
    destruct (String.eqb l "") eqn:Hl; [|exact Hrest].
    apply String.eqb_eq in Hl as ->. intros [= <- <-].
    exists []. split; [done|]. split; [done|]. exists "". split; [done|].
    by left.
Qed.

Lemma ask_returns_witness :
  snd (ask SkippablePrompt "Path" (Some "src")
         (mkTerminal [Line "   "; Line (nbsp ++ "train.py "); Line "later"]
            [] []))
  = inr (Some "train.py")
  ∧ snd (ask SkippablePrompt "Path" None
           (mkTerminal [Line (nbsp ++ "n")] [] []))
    = inr None
  ∧ snd (ask RequiredPrompt "Command" None
           (mkTerminal [Line nbsp; Interrupt; Line "x"] [] []))
    = inl KeyboardInterrupt
  ∧ ∃ used, rejected used
            ∧ [Line nbsp; Interrupt; Line "x"]
              = (used ++ [Interrupt; Line "x"])%list.
Proof.
  split_and!; [vm_compute; reflexivity..|].
  destruct (ask_returns RequiredPrompt "Command" None
              (mkTerminal [Line nbsp; Interrupt; Line "x"] [] [])
              (fst (ask RequiredPrompt "Command" None
                      (mkTerminal [Line nbsp; Interrupt; Line "x"] [] [])))
              (inl KeyboardInterrupt))
    as (used & Hrej & _ & [(He & _)|(_ & Hu)]).
  - vm_compute. reflexivity.
  - discriminate He.
  - exists used. split; [exact Hrej|]. exact Hu.
Defined.

Lemma lremove_keys_spec (d : dict) (seq : list string) (k : string) :
  In k (lremove_keys d seq) ↔ In k seq ∧ d !! k = None.
Proof.
  unfold lremove_keys. rewrite filter_In. split; intros [Hin Hk];
    (split; [done|]).
  - apply negb_true_iff, bool_decide_eq_false in Hk.
    destruct (d !! k); [|done]. exfalso. apply Hk. by eexists.
  - apply negb_true_iff, bool_decide_eq_false. rewrite Hk. by intros [? ?].
Qed.

Lemma lremove_keys_all (d : dict) (seq : list string) :
  (∀ k, In k seq → is_Some (d !! k)) → lremove_keys d seq = [].
Proof.
  intros Hall. destruct (lremove_keys d seq) as [|k l] eqn:Hl; [done|].
  assert (Hin : In k (lremove_keys d seq)) by (rewrite Hl; by left).
  apply lremove_keys_spec in Hin as [Hin Hk].
  destruct (Hall k Hin) as [? ?]. congruence.
Qed.

(** X13.  When the overrides provide every key the wizard would ask for,
    [init_interactive] returns the empty dictionary at once: nothing is
    written to the terminal and nothing is read from it, and the defaults
    are not used. *)
Theorem init_interactive_nothing_to_ask (name : string)
    (defaults provided : dict) (show_tree live : bool) (t : Terminal) :
  (∀ k, In k ["cmd"; "code"; "data"; "models"; "params"] →
        is_Some (provided !! k)) →
  (∀ k, In k (if live then ["live"] else ["metrics"; "plots"]) →
        is_Some (provided !! k)) →
  init_interactive name defaults provided show_tree live t = (t, inr ∅).
Proof.
  intros H1 H2. unfold init_interactive.
  by rewrite (lremove_keys_all _ _ H1), (lremove_keys_all _ _ H2).
Qed.

Lemma init_interactive_nothing_to_ask_witness :
  init_interactive "train" demo_defaults demo_defaults true true
    (mkTerminal [Line "x"] [true] [])
  = (mkTerminal [Line "x"] [true] [], inr ∅).
Proof.
  apply (init_interactive_nothing_to_ask "train" demo_defaults demo_defaults
           true true (mkTerminal [Line "x"] [true] []));
    intros k Hk; simpl in Hk;
    repeat (destruct Hk as [<-|Hk];
            [apply (bool_decide_unpack _); by vm_compute|]);
    destruct Hk.
Defined.

Lemma prompts_pairs_keys (keys : list string) (defaults : dict)
    (t t' : Terminal) (pairs : list (string * option string)) :
  _prompts_pairs keys defaults t = (t', inr pairs) → List.map fst pairs = keys.
Proof.
  revert t t' pairs.
  induction keys as [|key keys IH]; intros t t' pairs; simpl.
  - by intros [= _ <-].
  - intros H.
    apply ExpInitSpec.bind_inv in H as [(? & _ & ?)|(p & t1 & _ & H)]; [done|].
    apply ExpInitSpec.bind_inv in H as [(? & _ & ?)|(v & t2 & _ & H)]; [done|].
    apply ExpInitSpec.bind_inv in H as [(? & _ & ?)|(rest & t3 & Hr & H)];
      [done|].
    injection H as _ <-. simpl. f_equal. by eapply IH.
Qed.

Lemma dict_of_pairs_keys {V} (l : list (string * V)) (k : string) (v : V) :
  dict_of_pairs l !! k = Some v → In k (List.map fst l).
Proof.
  unfold dict_of_pairs.
  assert (H : ∀ acc : gmap string V,
            fold_left (λ m kv, <[kv.1:=kv.2]> m) l acc !! k = Some v →
            In k (List.map fst l) ∨ acc !! k = Some v).
  { induction l as [|[k0 v0] l IH]; intros acc; simpl; [by right|].
    intros Hl. apply IH in Hl as [Hl|Hl]; [by left; right|].
    destruct (decide (k0 = k)) as [->|Hne]; [by left; left|].
    right. by rewrite lookup_insert_ne in Hl. }
  intros Hl. apply H in Hl as [Hl|Hl]; [done|]. by rewrite lookup_empty in Hl.
Qed.

Lemma prompts_keys (keys : list string) (defaults : dict) (t t' : Terminal)
    (d : gmap string (option string)) (k : string) (v : option string) :
  _prompts keys defaults t = (t', inr d) → d !! k = Some v → In k keys.
Proof.
  unfold _prompts. intros H Hk.
  apply ExpInitSpec.bind_inv in H as [(? & _ & ?)|(pairs & t1 & Hp & H)];
    [done|].
  injection H as _ <-. apply dict_of_pairs_keys in Hk.
  by rewrite (prompts_pairs_keys _ _ _ _ _ Hp) in Hk.
Qed.

(** X14.  What [init_interactive] returns holds only answers to questions it
    asked: every key is one of the keys of the wizard and is not a key of
    the overrides, so the answers never compete with an override, and no
    value is empty, omitted answers being left out. *)
Theorem init_interactive_answers (name : string) (defaults provided : dict)
    (show_tree live : bool) (t t' : Terminal) (d : dict) :
  init_interactive name defaults provided show_tree live t = (t', inr d) →
  ∀ k v, d !! k = Some v →
    v ≠ ""
    ∧ provided !! k = None
    ∧ In k (["cmd"; "code"; "data"; "models"; "params"]
            ++ (if live then ["live"] else ["metrics"; "plots"]))%list.
Proof.
  unfold init_interactive.
  set (primary := lremove_keys provided ["cmd"; "code"; "data"; "models"; "params"]).
  set (secondary := lremove_keys provided (if live then ["live"] else ["metrics"; "plots"])).
  assert (Hmain :
    (term_write Stderr
       [Text ("This command will guide you to set up a " ++ name ++ " stage in "
              ++ "dvc.yaml" ++ ".");
        Text ("See " ++ PIPELINE_FILE_LINK ++ "."); Text ""] ;;;
     (if show_tree then
        term_write Stderr
          [Tree "DVC assumes the following workspace structure:"
             (List.map (fun value => "[green]" ++ value ++ "[/green]")
                (sorted_values
                   (if negb live && negb (bool_decide (is_Some (provided !! "live")))
                    then delete "live" (delete "cmd" (provided ∪ defaults))
                    else delete "cmd" (provided ∪ defaults))))] ;;;
        term_write Stderr []
      else ret tt) ;;;
     p <- _prompts primary defaults ;;
     s <- _prompts secondary defaults ;;
     ret (compact (s ∪ p)))%monad t = (t', inr d) →
    ∀ k v, d !! k = Some v →
      v ≠ "" ∧ provided !! k = None
      ∧ In k (["cmd"; "code"; "data"; "models"; "params"]
              ++ (if live then ["live"] else ["metrics"; "plots"]))%list).
  { intros H k v Hk.
    apply ExpInitSpec.bind_inv in H as [(? & _ & ?)|([] & t1 & _ & H)]; [done|].
    apply ExpInitSpec.bind_inv in H as [(? & _ & ?)|([] & t2 & _ & H)]; [done|].
    apply ExpInitSpec.bind_inv in H as [(? & _ & ?)|(p & t3 & Hp & H)]; [done|].
    apply ExpInitSpec.bind_inv in H as [(? & _ & ?)|(s & t4 & Hs & H)]; [done|].
    injection H as _ <-. unfold compact in Hk. rewrite lookup_omap in Hk.
    destruct ((s ∪ p) !! k) as [[x|]|] eqn:Hx; simpl in Hk; try done.
    destruct (truthy x) eqn:Ht; [|done]. injection Hk as ->.
    split.
    { intros ->. done. }
    assert (Hin : In k primary ∨ In k secondary).
    { apply lookup_union_Some_raw in Hx as [Hx|[_ Hx]].
      - right. by eapply prompts_keys.
      - left. by eapply prompts_keys. }
    rewrite in_app_iff.
    destruct Hin as [Hin|Hin]; apply lremove_keys_spec in Hin as [Hin Hno];
      auto. }
  destruct primary; [|exact Hmain].
  destruct secondary; [|exact Hmain].
  intros [= _ <-] k v Hk. by rewrite lookup_empty in Hk.
Qed.

Lemma init_interactive_answers_witness :
  snd (init_interactive "train" demo_defaults {["cmd" := "python train.py"]}
         true false
         (mkTerminal [Line "n"; Line ""; Line " out "; Line "n"; Line ""; Line "n"]
                      [] []))
  = inr (<["data" := "data"]> (<["models" := "out"]>
           (<["metrics" := "metrics.json"]> ∅)))
  ∧ "out" ≠ ""
  ∧ ({["cmd" := "python train.py"]} : dict) !! "models" = None.
Proof.
  assert (Hrun : init_interactive "train" demo_defaults
                   {["cmd" := "python train.py"]} true false
                   (mkTerminal [Line "n"; Line ""; Line " out "; Line "n"; Line ""; Line "n"]
                      [] [])
                 = (fst (init_interactive "train" demo_defaults
                           {["cmd" := "python train.py"]} true false
                           (mkTerminal [Line "n"; Line ""; Line " out "; Line "n"; Line ""; Line "n"]
                      [] [])),
                    inr (<["data" := "data"]> (<["models" := "out"]>
                           (<["metrics" := "metrics.json"]> ∅)))))
    by by vm_compute.
  split; [exact (f_equal snd Hrun)|].
  assert (Hk : (<["data" := "data"]> (<["models" := "out"]>
                  (<["metrics" := "metrics.json"]> ∅)) : dict) !! "models"
               = Some "out") by by vm_compute.
  destruct (init_interactive_answers _ _ _ _ _ _ _ _ Hrun "models" "out" Hk)
    as (Hv & Hp & _).
  exact (conj Hv Hp).
Defined.

(** X15.  A non-interactive [init] asserts that a command is known before
    it creates anything: past the check for an existing stage and the
    removal of the suppressed defaults, when neither the overrides nor the
    kept defaults have the key ["cmd"], it raises [AssertionError] and the
    state is untouched. *)
Theorem init_requires_cmd (C : Collaborators) (name : option string)
    (type : string) (defaults overrides : option dict) (force : bool)
    (w : world (Repo C)) :
  negb force && dvcfile_exists C "dvc.yaml" (repo w)
    && dvcfile_has_stage C "dvc.yaml" (repo w) (name_or name type) = false →
  (type = "live" → is_Some (default ∅ defaults !! "metrics")
                   ∧ is_Some (default ∅ defaults !! "params")) →
  (type ≠ "live" → is_Some (default ∅ defaults !! "live")) →
  (default ∅ overrides ∪ kept_defaults type (default ∅ defaults)) !! "cmd" = None →
  init C name type defaults overrides false force w = (w, inl AssertionError).
Proof.
  intros Hcheck Hlive Hother Hcmd.
  unfold init, _check_stage_exists, dict_pop. run. cbn [gets].
  rewrite Hcheck. cbn [negb]. unfold kept_defaults in Hcmd.
  destruct (String.eqb type "live") eqn:Ht.
  - apply String.eqb_eq in Ht. destruct (Hlive Ht) as [[m Hm] [p Hp]].
    rewrite Hm. simpl. rewrite lookup_delete_ne by done. rewrite Hp. simpl.
    rewrite bool_decide_eq_false_2; [done|].
    rewrite Hcmd. by intros [? ?].
  - apply String.eqb_neq in Ht. destruct (Hother Ht) as [l Hl].
    rewrite Hl. simpl.
    rewrite bool_decide_eq_false_2; [done|].
    rewrite Hcmd. by intros [? ?].
Qed.

Lemma init_requires_cmd_witness :
  init demo (Some "prepare") "default" (Some {["live" := "dvclive"]})
    (Some {["code" := "src"]}) false false (demo_world true)
  = (demo_world true, inl AssertionError).
Proof.
  apply (init_requires_cmd demo (Some "prepare") "default"
           (Some {["live" := "dvclive"]}) (Some {["code" := "src"]}) false
           (demo_world true)).
  - reflexivity.
  - intros Ht. discriminate Ht.
  - intros _. by eexists.
  - reflexivity.
Defined.

End ExpInitExtra.
